(** * Vectara indexer and SQL cache: a shallow embedding

    Two Python components are embedded here:
    - [destination_vectara/indexer.py]: class [VectaraIndexer];
    - [airbyte_lib/caches/bases/sql.py]: class [SQLCache].

    Python [str] values are Rocq [string]s, read as sequences of code points
    below 256.  Stateful methods live in a state-and-exception monad: a
    raised exception keeps the side effects made before it. *)

From Stdlib Require Import ZArith Ascii String List Bool Lia OrdersEx.
From Stdlib Require Import SpecFloat DecimalN DecimalPos.
From stdpp Require Import base option list strings gmap.

Local Open Scope string_scope.
Local Open Scope Z_scope.
Local Open Scope list_scope.

(** ** Python strings *)

(** [str.lower()] on code points below 256: [A-Z], and the Latin-1 capitals
    U+00C0..U+00DE except the multiplication sign U+00D7, move up by 32. *)
Definition lower_char (c : ascii) : ascii :=
  let n := N_of_ascii c in
  if ((65 <=? n) && (n <=? 90))%N
     || ((192 <=? n) && (n <=? 222) && negb (n =? 215))%N
  then ascii_of_N (n + 32) else c.

Fixpoint str_map (f : ascii -> ascii) (s : string) : string :=
  match s with
  | EmptyString => EmptyString
  | String c r => String (f c) (str_map f r)
  end.

Definition lower (s : string) : string := str_map lower_char s.

(** [s.replace(old, new)] for one-character [old] and [new]. *)
Definition replace_char (old new : ascii) (s : string) : string :=
  str_map (fun c => if Ascii.eqb c old then new else c) s.

(** ** SQLCache: name normalization (sql.py, lines 197-207) *)

Definition _normalize_column_name (raw_name : string) : string :=
  replace_char "-" "_" (replace_char " " "_" (lower raw_name)).

Definition _normalize_table_name (raw_name : string) : string :=
  replace_char "-" "_" (replace_char " " "_" (lower raw_name)).

(** What normalization does to one character. *)
Definition normalize_char (c : ascii) : ascii :=
  if Ascii.eqb c " " || Ascii.eqb c "-" then "_"%char else lower_char c.

(** ** Exceptions and the state-and-exception monad *)

Inductive exn : Type :=
| TypeError (msg : string)
| KeyError (key : string)
| AttributeError (attr : string)
| ValueError (msg : string)
| NotImplementedError (msg : string)
| RemoteError (msg : string).
(** [RemoteError] stands for whatever an external call raises: a network
    failure, [raise_for_status], a body that is not JSON, an SQL error. *)

Inductive result (A : Type) : Type :=
| Ok (a : A)
| Raise (e : exn).
Arguments Ok {A} a.
Arguments Raise {A} e.

(** A method body: it reads and writes the state [S]; when it raises, the
    writes made so far stay. *)
Definition M (S A : Type) : Type := S -> result A * S.

#[global] Instance M_ret {S} : MRet (M S) := fun A a s => (Ok a, s).
#[global] Instance M_bind {S} : MBind (M S) := fun A B k m s =>
  match m s with
  | (Ok a, s') => k a s'
  | (Raise e, s') => (Raise e, s')
  end.
#[global] Instance M_throw {S} : MThrow exn (M S) := fun A e s => (Raise e, s).

Definition get_state {S} : M S S := fun s => (Ok s, s).
Definition modify_state {S} (f : S -> S) : M S unit := fun s => (Ok tt, f s).
Definition lift_result {S A} (r : result A) : M S A := fun s => (r, s).

(** [try: body except Exception as e: handler e]. *)
Definition try_except {S A} (body : M S A) (handler : exn -> M S A) : M S A :=
  fun s => match body s with
           | (Ok a, s') => (Ok a, s')
           | (Raise e, s') => handler e s'
           end.

(** Binding keyword arguments to a function whose parameters are all
    required: a keyword that is not a parameter name, or a parameter left
    without a value, is a [TypeError].  The values come back in parameter
    order. *)
Fixpoint kw_lookup {A} (k : string) (kwargs : list (string * A)) : option A :=
  match kwargs with
  | [] => None
  | (k', v) :: r => if String.eqb k k' then Some v else kw_lookup k r
  end.

Fixpoint kw_collect {A} (params : list string) (kwargs : list (string * A))
  : option (list A) :=
  match params with
  | [] => Some []
  | p :: ps =>
      match kw_lookup p kwargs, kw_collect ps kwargs with
      | Some v, Some vs => Some (v :: vs)
      | _, _ => None
      end
  end.

Definition bind_keywords {A} (fname : string) (params : list string)
    (kwargs : list (string * A)) : result (list A) :=
  match List.filter (fun kv => negb (existsb (String.eqb (fst kv)) params)) kwargs with
  | (k, _) :: _ =>
      Raise (TypeError (fname +:+ "() got an unexpected keyword argument '" +:+ k +:+ "'"))
  | [] =>
      match kw_collect params kwargs with
      | Some vs => Ok vs
      | None => Raise (TypeError (fname +:+ "() missing a required positional argument"))
      end
  end.

(** ** Python dicts

    A dict is the list of its items in insertion order, keys distinct.
    [d[k] = v] on a key already there overwrites the value and keeps the
    key's place; on a new key it appends. *)
Fixpoint dict_setitem {K V} (eqb : K -> K -> bool) (k : K) (v : V) (d : list (K * V))
  : list (K * V) :=
  match d with
  | [] => [(k, v)]
  | (k', v') :: r =>
      if eqb k k' then (k', v) :: r else (k', v') :: dict_setitem eqb k v r
  end.

(** ** VectaraIndexer (indexer.py) *)

(** *** The remote service, as the indexer sees it *)

Record corpus : Type := Corpus { corpus_id_ : Z; corpus_name_ : string }.

Record filter_attribute : Type := FilterAttribute {
  fa_name : string;
  fa_indexed : bool;
  fa_type : string;
  fa_level : string }.

(** The JSON bodies that [_request] sends, one shape per endpoint. *)
Inductive request_data : Type :=
| ListCorporaData (numResults : Z) (filter : string)
| CreateCorpusData (name : string) (filterAttributes : list filter_attribute)
| QueryData (numResults : Z) (customerId : string) (corpusId : Z)
            (metadataFilter : string)
| DeleteDocData (customerId : string) (corpusId : Z) (documentId : string).

(** The decoded JSON answers. [DeleteDocResponse b]: [b] is the truth value
    of the answer (a non-empty object is true). *)
Inductive response_json : Type :=
| ListCorporaResponse (corpus : list corpus)
| CreateCorpusResponse (corpusId : Z)
| QueryResponse (document : list string)
| DeleteDocResponse (truthy : bool).

(** What goes over the wire. *)
Inductive event : Type :=
| TokenRequest (customer_id client_id client_secret : string)
| ApiRequest (endpoint bearer customer_id : string) (data : request_data).

(** Arguments of [_delete_doc_by_metadata]: a string or a list of strings. *)
Inductive py_arg : Type :=
| PyStr (s : string)
| PyStrList (l : list string).

(** Everything outside the class: the clock, the OAuth2 token endpoint, the
    REST API acting on a remote state [R], and the imported helpers of
    [airbyte_cdk] ([format_exception], the two metadata field names) and of
    Python ([str] of an argument inside an f-string).  Timestamps and
    [expires_in] are exact integers here. *)
Record environment (R : Type) : Type := Environment {
  clock : nat -> Z;
  token_endpoint : string -> string -> string -> R -> result (string * Z) * R;
  api : string -> string -> string -> request_data -> R -> result response_json * R;
  format_exception : exn -> string;
  METADATA_STREAM_FIELD : string;
  METADATA_RECORD_ID_FIELD : string;
  py_str : py_arg -> string }.
Arguments clock {R} _ _.
Arguments token_endpoint {R} _ _ _ _ _.
Arguments api {R} _ _ _ _ _ _.
Arguments format_exception {R} _ _.
Arguments METADATA_STREAM_FIELD {R} _.
Arguments METADATA_RECORD_ID_FIELD {R} _.
Arguments py_str {R} _ _.

(** *** The object and the world around it *)

(** Attributes of a [VectaraIndexer]; [None] is an attribute not set yet
    ([__init__] sets neither [corpus_id] nor the token fields). *)
Record VectaraIndexer : Type := mkIndexer {
  customer_id : string;
  corpus_name : string;
  client_id : string;
  client_secret : string;
  corpus_id : option Z;
  jwt_token : option string;
  jwt_token_expires_ts : option Z }.

Record world (R : Type) : Type := World {
  self : VectaraIndexer;
  remote : R;
  ticks : nat;
  log : list event }.
Arguments World {R} _ _ _ _.
Arguments self {R} _.
Arguments remote {R} _.
Arguments ticks {R} _.
Arguments log {R} _.

Definition __init__ (customer_id corpus_name client_id client_secret : string)
  : VectaraIndexer :=
  mkIndexer customer_id corpus_name client_id client_secret None None None.

Section Indexer.
Context {R : Type} (E : environment R).

(** [datetime.datetime.now().timestamp()]: the next reading of the clock. *)
Definition now : M (world R) Z := fun w =>
  (Ok (clock E (ticks w)), World (self w) (remote w) (S (ticks w)) (log w)).

Definition set_self (f : VectaraIndexer -> VectaraIndexer) : M (world R) unit :=
  modify_state (fun w => World (f (self w)) (remote w) (ticks w) (log w)).

(** Reading an attribute that was never assigned is an [AttributeError]. *)
Definition getattr {A} (name : string) (field : VectaraIndexer -> option A)
  : M (world R) A := fun w =>
  match field (self w) with
  | Some a => (Ok a, w)
  | None => (Raise (AttributeError name), w)
  end.

(** The POST to the token endpoint, decoded down to
    [(access_token, expires_in)]. *)
Definition post_token : M (world R) (string * Z) := fun w =>
  let i := self w in
  let w1 := World i (remote w) (ticks w)
              (log w ++ [TokenRequest (customer_id i) (client_id i) (client_secret i)]) in
  let '(r, rem) := token_endpoint E (customer_id i) (client_id i) (client_secret i)
                     (remote w) in
  (r, World i rem (ticks w1) (log w1)).

(** [requests.request(...)] on the API, [raise_for_status()], [.json()]. *)
Definition post_api (endpoint bearer : string) (data : request_data)
  : M (world R) response_json := fun w =>
  let i := self w in
  let w1 := World i (remote w) (ticks w)
              (log w ++ [ApiRequest endpoint bearer (customer_id i) data]) in
  let '(r, rem) := api E endpoint bearer (customer_id i) data (remote w) in
  (r, World i rem (ticks w1) (log w1)).

(** Lines 113-134. *)
Definition _get_jwt_token : M (world R) string :=
  request_time ← now;
  response_json ← post_token;
  let token := fst response_json in
  let expires_in := request_time + snd response_json in
  set_self (fun i => mkIndexer (customer_id i) (corpus_name i) (client_id i)
                       (client_secret i) (corpus_id i)
                       (Some token) (Some expires_in));;
  mret token.

(** Lines 92-111. *)
Definition _request (endpoint : string) (data : request_data)
  : M (world R) response_json :=
  current_ts ← now;
  expires_ts ← getattr "jwt_token_expires_ts" jwt_token_expires_ts;
  (if expires_ts - current_ts <=? 60
   then _get_jwt_token ≫= (fun _ => mret tt)
   else mret tt);;
  bearer ← getattr "jwt_token" jwt_token;
  post_api endpoint bearer data.

(** The dict comprehension of line 44. *)
Definition possible_corpora_ids_names_map (name : string) (cs : list corpus)
  : list (Z * string) :=
  fold_left (fun d c => if String.eqb (corpus_name_ c) name
                        then dict_setitem Z.eqb (corpus_id_ c) (corpus_name_ c) d
                        else d) cs [].

Definition set_corpus_id (c : Z) : M (world R) unit :=
  set_self (fun i => mkIndexer (customer_id i) (corpus_name i) (client_id i)
                       (client_secret i) (Some c)
                       (jwt_token i) (jwt_token_expires_ts i)).

Definition corpus_filter_attributes : list filter_attribute :=
  [ FilterAttribute (METADATA_STREAM_FIELD E) true
      "FILTER_ATTRIBUTE_TYPE__TEXT" "FILTER_ATTRIBUTE_LEVEL__DOCUMENT";
    FilterAttribute (METADATA_RECORD_ID_FIELD E) true
      "FILTER_ATTRIBUTE_TYPE__TEXT" "FILTER_ATTRIBUTE_LEVEL__DOCUMENT" ].

(** Lines 31-75.  The result is the method's return value: [None], or an
    error string. *)
Definition check : M (world R) (option string) :=
  try_except
    (jwt ← _get_jwt_token;
     if String.eqb jwt ""
     then mret (Some "Unable to get JWT Token. Confirm your Client ID and Client Secret.")
     else
       i ← get_state;
       let name := corpus_name (self i) in
       list_corpora_response ← _request "list-corpora" (ListCorporaData 100 name);
       match list_corpora_response with
       | ListCorporaResponse cs =>
           let possible := possible_corpora_ids_names_map name cs in
           if (1 <? length possible)%nat
           then mret (Some ("Multiple Corpora exist with name " +:+ name))
           else
             match possible with
             | [(id, _)] => set_corpus_id id;; mret None
             | _ =>
                 create_corpus_response ←
                   _request "create-corpus"
                     (CreateCorpusData name corpus_filter_attributes);
                 match create_corpus_response with
                 | CreateCorpusResponse cid => set_corpus_id cid;; mret None
                 | _ => mthrow (KeyError "corpusId")
                 end
             end
       | _ => mthrow (KeyError "corpus")
       end)
    (fun e => mret (Some (format_exception E e))).

(** Lines 136-168. *)
Fixpoint delete_documents (document_ids : list string)
    (documents_not_deleted : list string) : M (world R) (list string) :=
  match document_ids with
  | [] => mret documents_not_deleted
  | document_id :: rest =>
      i ← get_state;
      corpusId ← getattr "corpus_id" corpus_id;
      delete_document_response ←
        _request "delete-doc"
          (DeleteDocData (customer_id (self i)) corpusId document_id);
      match delete_document_response with
      | DeleteDocResponse true =>
          delete_documents rest (documents_not_deleted ++ [document_id])
      | _ => delete_documents rest documents_not_deleted
      end
  end.

Definition _delete_doc_by_metadata (metadata_field : py_arg)
    (metadata_field_value : py_arg) : M (world R) (list string) :=
  i ← get_state;
  corpusId ← getattr "corpus_id" corpus_id;
  query_documents_response ←
    _request "query"
      (QueryData 100 (customer_id (self i)) corpusId
         ("doc." +:+ py_str E metadata_field +:+ " = '"
            +:+ py_str E metadata_field_value +:+ "'"));
  match query_documents_response with
  | QueryResponse document_ids => delete_documents document_ids []
  | _ => mthrow (KeyError "responseSet")
  end.

(** The two callers pass [field_name=] and [field_values=]; the
    parameters are called [metadata_field] and [metadata_field_value]. *)
Definition call__delete_doc_by_metadata (kwargs : list (string * py_arg))
  : M (world R) (list string) :=
  args ← lift_result (bind_keywords "_delete_doc_by_metadata"
                        ["metadata_field"; "metadata_field_value"] kwargs);
  match args with
  | [a; b] => _delete_doc_by_metadata a b
  | _ => mthrow (TypeError "_delete_doc_by_metadata()")
  end.

(** Lines 84-86; [namespace] and [stream] are not used. *)
Definition delete (delete_ids : list string) : M (world R) unit :=
  if (0 <? length delete_ids)%nat
  then call__delete_doc_by_metadata
         [("field_name", PyStr (METADATA_RECORD_ID_FIELD E));
          ("field_values", PyStrList delete_ids)] ≫= (fun _ => mret tt)
  else mret tt.
End Indexer.

Inductive DestinationSyncMode : Type := append | overwrite | append_dedup.

Record ConfiguredAirbyteStream : Type := ConfiguredStream {
  stream_name_ : string;
  destination_sync_mode : DestinationSyncMode }.

Definition is_overwrite (m : DestinationSyncMode) : bool :=
  match m with overwrite => true | _ => false end.

Definition streams_to_overwrite (catalog : list ConfiguredAirbyteStream) : list string :=
  List.map stream_name_
    (List.filter (fun s => is_overwrite (destination_sync_mode s)) catalog).

(** Lines 77-82. *)
Definition pre_sync {R} (E : environment R) (catalog : list ConfiguredAirbyteStream)
  : M (world R) unit :=
  if (0 <? length (streams_to_overwrite catalog))%nat
  then call__delete_doc_by_metadata E
         [("field_name", PyStr (METADATA_STREAM_FIELD E));
          ("field_values", PyStrList (streams_to_overwrite catalog))]
       ≫= (fun _ => mret tt)
  else mret tt.

(** *** A small remote service, for running the indexer on examples

    The remote state is the list of corpora.  The token endpoint grants
    [expires_in = 1800]; [list-corpora] answers with every corpus,
    [create-corpus] appends one whose id is the count so far plus one; the
    clock reads [1000], [1001], ... *)
Definition demo_api (endpoint bearer customer : string) (data : request_data)
    (r : list corpus) : result response_json * list corpus :=
  match data with
  | ListCorporaData _ _ => (Ok (ListCorporaResponse r), r)
  | CreateCorpusData name _ =>
      let id := Z.of_nat (length r) + 1 in
      (Ok (CreateCorpusResponse id), (r ++ [Corpus id name])%list)
  | QueryData _ _ _ _ => (Ok (QueryResponse []), r)
  | DeleteDocData _ _ _ => (Ok (DeleteDocResponse false), r)
  end.

Definition demo_env : environment (list corpus) := {|
  clock := fun n => 1000 + Z.of_nat n;
  token_endpoint := fun _ _ _ r => (Ok ("jwt", 1800), r);
  api := demo_api;
  format_exception := fun e => "error";
  METADATA_STREAM_FIELD := "_ab_stream";
  METADATA_RECORD_ID_FIELD := "_ab_record_id";
  py_str := fun a => match a with
                     | PyStr s => s
                     | PyStrList l => String.concat ", " l
                     end |}.

Definition demo_indexer : VectaraIndexer := __init__ "cust" "docs" "id" "secret".

Definition demo_world (r : list corpus) : world (list corpus) :=
  World demo_indexer r 0 [].

(** The indexer holding a token that expires at [expires_ts]. *)
Definition demo_world_with_token (expires_ts : Z) : world (list corpus) :=
  World (mkIndexer "cust" "docs" "id" "secret" (Some 1) (Some "old") (Some expires_ts))
        [] 0 [].

(** The token requests and the API requests of a log. *)
Definition is_token_request (ev : event) : bool :=
  match ev with TokenRequest _ _ _ => true | ApiRequest _ _ _ _ => false end.

Definition token_requests (l : list event) : nat :=
  length (List.filter is_token_request l).

Definition api_requests (l : list event) : list (string * request_data) :=
  flat_map (fun ev => match ev with
                      | ApiRequest endpoint _ _ data => [(endpoint, data)]
                      | TokenRequest _ _ _ => []
                      end) l.

(** ** SQLCache (sql.py) *)

Inductive RecordDedupeMode : Type := APPEND | REPLACE.

Record SQLCacheConfigBase : Type := Config {
  dedupe_mode : RecordDedupeMode;
  schema : string;
  table_prefix : string;
  table_suffix : string;
  sql_alchemy_url : string }.

(** A row maps column names to values; a frame (the content of a Parquet
    file, or of a table) is a list of rows. *)
Definition row : Type := list (string * string).
Definition frame : Type := list row.

(** The SQL statements the class builds, by the values spliced into their
    text.  The SET clause of MERGE joins over a Python set, whose order is
    not fixed: it is kept as a set. *)
Inductive statement : Type :=
| CreateTable (table_name column_definition_str : string)
| DropTable (table_name : string)
| InsertIntoSelect (final_table_name : string) (columns : list string)
                   (temp_table_name : string)
| MergeInto (final_table_name temp_table_name join_clause : string)
            (non_pk_columns : gset string) (columns : list string).

(** What reaches the database. *)
Inductive db_op : Type :=
| Execute (s : statement)
| HasTable (table_name : string)
| ToSql (table_name : string) (data : frame).

(** Everything outside the class: the SQL engine behind a URL, acting on a
    database [DB] ([execute] is one statement in its own transaction,
    [has_table] the inspector, [to_sql] is
    [DataFrame.to_sql(name, url, if_exists="replace", index=False)]), the
    Parquet reader, and the stream of fresh ULIDs. *)
Record sql_environment (DB : Type) : Type := SqlEnvironment {
  execute : string -> statement -> DB -> result unit * DB;
  has_table : string -> string -> DB -> result bool;
  to_sql : string -> string -> frame -> DB -> result unit * DB;
  read_parquet : string -> result frame;
  ulid : nat -> string }.
Arguments execute {DB} _ _ _ _.
Arguments has_table {DB} _ _ _ _.
Arguments to_sql {DB} _ _ _ _ _.
Arguments read_parquet {DB} _ _.
Arguments ulid {DB} _ _.

Record sql_world (DB : Type) : Type := SqlWorld {
  db : DB;
  ulids_drawn : nat;
  issued : list db_op }.
Arguments SqlWorld {DB} _ _ _.
Arguments db {DB} _.
Arguments ulids_drawn {DB} _.
Arguments issued {DB} _.

(** *** Dynamic dispatch

    An instance carries its attributes and, for every method that is not
    [@final], what [self.<method>] resolves to on it ([self_<method>]).
    Where the class calls such a method with a number of positional
    arguments that its own definition does not take, the slot receives the
    list of arguments, and the definition checks its length as the
    interpreter does.  The methods of [SQLCacheCore] touch no database. *)
Record SQLCacheCore : Type := Core {
  config : SQLCacheConfigBase;
  catalog : list (string * list (string * string));
  supports_merge_insert : bool;
  to_sql_type : string -> string;
  self_get_sql_alchemy_url : list SQLCacheConfigBase -> result string;
  self_get_sql_table_name : string -> string;
  self__normalize_column_name : string -> string;
  self__normalize_table_name : string -> string;
  self__get_primary_keys : string -> list string }.

Record SQLCache (DB : Type) : Type := Cache {
  core : SQLCacheCore;
  self__ensure_final_table_exists : string -> bool -> M (sql_world DB) string;
  self__drop_temp_table : string -> M (sql_world DB) unit;
  self__write_files_to_new_table : list string -> string -> M (sql_world DB) unit;
  self__append_temp_table_to_final_table : list string -> M (sql_world DB) unit;
  self__merge_temp_table_to_final_table : list string -> M (sql_world DB) unit }.
Arguments Cache {DB} _ _ _ _ _ _.
Arguments core {DB} _.
Arguments self__ensure_final_table_exists {DB} _ _ _ _.
Arguments self__drop_temp_table {DB} _ _ _.
Arguments self__write_files_to_new_table {DB} _ _ _ _.
Arguments self__append_temp_table_to_final_table {DB} _ _ _.
Arguments self__merge_temp_table_to_final_table {DB} _ _ _.

Definition nl : string := String (ascii_of_nat 10) "".
Definition TIMESTAMP : string := "TIMESTAMP".

(** *** Methods that touch no database *)

(** Lines 75-77: [get_sql_alchemy_url(self)]. *)
Definition get_sql_alchemy_url (config : SQLCacheConfigBase)
    (args : list SQLCacheConfigBase) : result string :=
  match args with
  | [] => Ok (sql_alchemy_url config)
  | _ => Raise (TypeError "get_sql_alchemy_url() takes 1 positional argument but 2 were given")
  end.

(** Lines 79-82, [@final]: the engine is known by its URL. *)
Definition get_sql_engine (self : SQLCacheCore) : result string :=
  self_get_sql_alchemy_url self [config self].

(** Lines 84-91. *)
Definition get_sql_table_name (config : SQLCacheConfigBase)
    (normalize_table_name : string -> string) (stream_name : string) : string :=
  normalize_table_name (table_prefix config +:+ stream_name +:+ table_suffix config).

(** Lines 329-334. *)
Definition _get_primary_keys (stream_name : string) : list string := [].

(** Lines 228-234, [@final]. *)
Definition _get_stream_json_schema (self : SQLCacheCore) (stream_name : string)
  : result (list (string * string)) :=
  match kw_lookup stream_name (catalog self) with
  | Some properties => Ok properties
  | None => Raise (KeyError stream_name)
  end.

(** Lines 209-226, [@final]. *)
Definition _get_sql_column_definitions (self : SQLCacheCore) (stream_name : string)
  : result (list (string * string)) :=
  match _get_stream_json_schema self stream_name with
  | Raise e => Raise e
  | Ok properties =>
      let columns :=
        fold_left (fun d p =>
                     dict_setitem String.eqb
                       (self__normalize_column_name self (fst p))
                       (to_sql_type self (snd p)) d) properties [] in
      Ok (dict_setitem String.eqb "_airbyte_loaded_at" TIMESTAMP
            (dict_setitem String.eqb "_airbyte_extracted_at" TIMESTAMP columns))
  end.

(** The join of lines 149-154 and 170-175. *)
Definition column_definition_str (columns : list (string * string)) : string :=
  String.concat ("," +:+ nl +:+ "  ")
    (List.map (fun c => fst c +:+ " " +:+ snd c) columns).

(** Lines 350-354, up to the order of the set. *)
Definition non_pk_columns (columns pk_columns : list string) : gset string :=
  list_to_set columns ∖ list_to_set pk_columns.

Definition join_clause (pk_columns : list string) : string :=
  String.concat "{nl} AND "
    (List.map (fun pk_col => "tmp." +:+ pk_col +:+ " = final." +:+ pk_col) pk_columns).

(** [max] over strings: code-point order, the first of the greatest. *)
Definition py_max (l : list string) : result string :=
  match l with
  | [] => Raise (ValueError "max() arg is an empty sequence")
  | x :: r => Ok (fold_left (fun m k => if String.ltb m k then k else m) r x)
  end.

Section Cache.
Context {DB : Type} (E : sql_environment DB).

Definition fresh_ulid : M (sql_world DB) string := fun w =>
  (Ok (ulid E (ulids_drawn w)), SqlWorld (db w) (S (ulids_drawn w)) (issued w)).

(** [with engine.begin() as conn: conn.execute(stmt)]. *)
Definition run_statement (engine : string) (s : statement) : M (sql_world DB) unit :=
  fun w =>
    let '(r, d) := execute E engine s (db w) in
    (r, SqlWorld d (ulids_drawn w) (issued w ++ [Execute s])).

Definition run_has_table (engine table_name : string) : M (sql_world DB) bool :=
  fun w => (has_table E engine table_name (db w),
            SqlWorld (db w) (ulids_drawn w) (issued w ++ [HasTable table_name])).

Definition run_to_sql (table_name url : string) (data : frame) : M (sql_world DB) unit :=
  fun w =>
    let '(r, d) := to_sql E table_name url data (db w) in
    (r, SqlWorld d (ulids_drawn w) (issued w ++ [ToSql table_name data])).

(** *** [@final] methods over the core *)

(** Lines 131-139: [batch_id or str(ulid.ULID())]. *)
Definition _get_temp_table_name (self : SQLCacheCore) (stream_name : string)
    (batch_id : option string) : M (sql_world DB) string :=
  batch_id ← match batch_id with
             | Some b => if String.eqb b "" then fresh_ulid else mret b
             | None => fresh_ulid
             end;
  mret (self__normalize_table_name self (stream_name +:+ "_" +:+ batch_id)).

(** Lines 180-195. *)
Definition _create_table (self : SQLCacheCore) (table_name column_definition_str : string)
  : M (sql_world DB) unit :=
  engine ← lift_result (get_sql_engine self);
  run_statement engine (CreateTable table_name column_definition_str).

(** Lines 377-382. *)
Definition _table_exists (self : SQLCacheCore) (table_name : string)
  : M (sql_world DB) bool :=
  engine ← lift_result (get_sql_engine self);
  run_has_table engine table_name.

(** Lines 141-155: [_create_table_for_loading(self, stream_name, batch_id)],
    called with the positional arguments [args]. *)
Definition _create_table_for_loading (self : SQLCacheCore) (args : list string)
  : M (sql_world DB) unit :=
  match args with
  | [stream_name; batch_id] =>
      temp_table_name ← _get_temp_table_name self stream_name (Some batch_id);
      columns ← lift_result (_get_sql_column_definitions self stream_name);
      _create_table self temp_table_name (column_definition_str columns)
  | _ => mthrow (TypeError "_create_table_for_loading() missing 1 required positional argument: 'batch_id'")
  end.

(** *** The class's own definitions of the overridable methods *)

(** Lines 157-178. *)
Definition _ensure_final_table_exists (self : SQLCacheCore) (stream_name : string)
    (create_if_missing : bool) : M (sql_world DB) string :=
  let table_name := self_get_sql_table_name self stream_name in
  did_exist ← _table_exists self table_name;
  (if negb did_exist && create_if_missing
   then columns ← lift_result (_get_sql_column_definitions self stream_name);
        _create_table self table_name (column_definition_str columns)
   else mret tt);;
  mret table_name.

(** Lines 258-268. *)
Definition _drop_temp_table (self : SQLCacheCore) (table_name : string)
  : M (sql_world DB) unit :=
  engine ← lift_result (get_sql_engine self);
  run_statement engine (DropTable table_name).

(** The loop of lines 281-289: every file is written with
    [if_exists="replace"]. *)
Fixpoint load_files (self : SQLCacheCore) (files : list string) (table_name : string)
  : M (sql_world DB) unit :=
  match files with
  | [] => mret tt
  | file_path :: rest =>
      record_batch ← lift_result (read_parquet E file_path);
      url ← lift_result (self_get_sql_alchemy_url self []);
      run_to_sql table_name url record_batch;;
      load_files self rest table_name
  end.

(** Lines 270-289. *)
Definition _write_files_to_new_table (self : SQLCacheCore) (files : list string)
    (table_name : string) : M (sql_world DB) unit :=
  _create_table_for_loading self [table_name];;
  load_files self files table_name.

(** Lines 309-327: [(self, temp_table_name, final_table_name, stream_name)]. *)
Definition _append_temp_table_to_final_table (self : SQLCacheCore) (args : list string)
  : M (sql_world DB) unit :=
  match args with
  | [temp_table_name; final_table_name; stream_name] =>
      columns ← lift_result (_get_sql_column_definitions self stream_name);
      engine ← lift_result (get_sql_engine self);
      run_statement engine
        (InsertIntoSelect final_table_name (List.map fst columns) temp_table_name)
  | _ => mthrow (TypeError "_append_temp_table_to_final_table() missing 1 required positional argument: 'stream_name'")
  end.

(** Lines 336-375: [(self, temp_table_name, final_table_name, stream_name)]. *)
Definition _merge_temp_table_to_final_table (self : SQLCacheCore) (args : list string)
  : M (sql_world DB) unit :=
  match args with
  | [temp_table_name; final_table_name; stream_name] =>
      columns ← lift_result (_get_sql_column_definitions self stream_name);
      let pk_columns := self__get_primary_keys self stream_name in
      engine ← lift_result (get_sql_engine self);
      run_statement engine
        (MergeInto final_table_name temp_table_name (join_clause pk_columns)
           (non_pk_columns (List.map fst columns) pk_columns) (List.map fst columns))
  | _ => mthrow (TypeError "_merge_temp_table_to_final_table() missing 1 required positional argument: 'stream_name'")
  end.

(** *** [@final] methods over the whole instance *)

(** Lines 291-307. *)
Definition _write_temp_table_to_final_table (self : SQLCache DB)
    (temp_table_name final_table_name : string) : M (sql_world DB) unit :=
  match dedupe_mode (config (core self)) with
  | REPLACE =>
      if negb (supports_merge_insert (core self))
      then mthrow (NotImplementedError
                     "Deduping was requested but merge-insert is not yet supported.")
      else self__merge_temp_table_to_final_table self [temp_table_name; final_table_name]
  | APPEND =>
      self__append_temp_table_to_final_table self [temp_table_name; final_table_name]
  end.

(** Lines 236-256; [batches] is the dict, as its items. *)
Definition _finalize_batches (self : SQLCache DB) (stream_name : string)
    (batches : list (string * string)) : M (sql_world DB) unit :=
  let files := List.map snd batches in
  max_batch_id ← lift_result (py_max (List.map fst batches));
  temp_table_name ← _get_temp_table_name (core self) stream_name (Some max_batch_id);
  self__write_files_to_new_table self files temp_table_name;;
  final_table_name ← self__ensure_final_table_exists self stream_name true;
  _write_temp_table_to_final_table self temp_table_name final_table_name;;
  self__drop_temp_table self temp_table_name.

(** *** The class itself: nothing overridden *)

Definition SQLCache_core (config : SQLCacheConfigBase)
    (catalog : list (string * list (string * string)))
    (to_sql_type : string -> string) : SQLCacheCore :=
  Core config catalog false to_sql_type
       (get_sql_alchemy_url config)
       (get_sql_table_name config _normalize_table_name)
       _normalize_column_name
       _normalize_table_name
       _get_primary_keys.

Definition extend (c : SQLCacheCore) : SQLCache DB :=
  Cache c
        (_ensure_final_table_exists c)
        (_drop_temp_table c)
        (_write_files_to_new_table c)
        (_append_temp_table_to_final_table c)
        (_merge_temp_table_to_final_table c).

Definition SQLCache_plain (config : SQLCacheConfigBase)
    (catalog : list (string * list (string * string)))
    (to_sql_type : string -> string) : SQLCache DB :=
  extend (SQLCache_core config catalog to_sql_type).
End Cache.

(** *** An in-memory engine, for running the cache on examples

    The database maps table names to their rows.  CREATE TABLE fails on a
    table that exists, DROP TABLE on one that does not; INSERT INTO ...
    SELECT appends the named columns of every row of the source; MERGE is
    not available; [to_sql] puts the frame in place of the table. *)
Definition project (columns : list string) (r : row) : option row :=
  mapM (fun c => match kw_lookup c r with
                 | Some v => Some (c, v)
                 | None => None
                 end) columns.

Definition mem_execute (engine : string) (s : statement) (d : gmap string frame)
  : result unit * gmap string frame :=
  match s with
  | CreateTable n _ =>
      match d !! n with
      | Some _ => (Raise (RemoteError "table already exists"), d)
      | None => (Ok tt, <[n := []]> d)
      end
  | DropTable n =>
      match d !! n with
      | Some _ => (Ok tt, base.delete n d)
      | None => (Raise (RemoteError "no such table"), d)
      end
  | InsertIntoSelect final columns temp =>
      match d !! final, d !! temp with
      | Some f, Some t =>
          match mapM (project columns) t with
          | Some rows => (Ok tt, <[final := f ++ rows]> d)
          | None => (Raise (RemoteError "no such column"), d)
          end
      | _, _ => (Raise (RemoteError "no such table"), d)
      end
  | MergeInto _ _ _ _ _ => (Raise (RemoteError "MERGE is not available"), d)
  end.

Definition users_rows : frame :=
  [ [("id", "1"); ("full_name", "Ada"); ("_airbyte_extracted_at", "t0");
     ("_airbyte_loaded_at", "t1")];
    [("id", "2"); ("full_name", "Bob"); ("_airbyte_extracted_at", "t0");
     ("_airbyte_loaded_at", "t1")] ].

Definition more_users_rows : frame :=
  [ [("id", "3"); ("full_name", "Cy"); ("_airbyte_extracted_at", "t2");
     ("_airbyte_loaded_at", "t3")] ].

Definition mem_env : sql_environment (gmap string frame) := {|
  execute := mem_execute;
  has_table := fun _ n d => Ok (bool_decide (is_Some (d !! n)));
  to_sql := fun n _ data d => (Ok tt, <[n := data]> d);
  read_parquet := fun path => if String.eqb path "users-01HA.parquet"
                              then Ok users_rows
                              else if String.eqb path "users-01HB.parquet"
                              then Ok more_users_rows
                              else Raise (RemoteError "no such file");
  ulid := fun n => "01J" +:+ String.concat "" (repeat "X" n) |}.

Definition empty_world : sql_world (gmap string frame) := SqlWorld ∅ 0 [].

Definition demo_config (mode : RecordDedupeMode) : SQLCacheConfigBase :=
  Config mode "main" "" "" "sqlite://".

Definition demo_catalog : list (string * list (string * string)) :=
  [("users", [("Id", "integer"); ("Full Name", "string")])].

Definition demo_to_sql_type (json_schema : string) : string :=
  if String.eqb json_schema "integer" then "BIGINT" else "VARCHAR".

(** The class as it is, in either mode. *)
Definition plain_cache (mode : RecordDedupeMode) : SQLCache (gmap string frame) :=
  SQLCache_plain mem_env (demo_config mode) demo_catalog demo_to_sql_type.

(** A subclass for the one stream [stream_name], overriding three methods:
    [get_sql_alchemy_url] takes the configuration or nothing,
    [_write_files_to_new_table] is the loading loop alone, and
    [_append_temp_table_to_final_table] takes the two table names. *)
Definition stream_core (mode : RecordDedupeMode) : SQLCacheCore :=
  Core (demo_config mode) demo_catalog false demo_to_sql_type
       (fun _ => Ok (sql_alchemy_url (demo_config mode)))
       (get_sql_table_name (demo_config mode) _normalize_table_name)
       _normalize_column_name
       _normalize_table_name
       _get_primary_keys.

Definition stream_cache (mode : RecordDedupeMode) (stream_name : string)
  : SQLCache (gmap string frame) :=
  let c := stream_core mode in
  Cache c
        (_ensure_final_table_exists mem_env c)
        (_drop_temp_table mem_env c)
        (load_files mem_env c)
        (fun args => match args with
                     | [temp_table_name; final_table_name] =>
                         _append_temp_table_to_final_table mem_env c
                           [temp_table_name; final_table_name; stream_name]
                     | _ => mthrow (TypeError "_append_temp_table_to_final_table()")
                     end)
        (_merge_temp_table_to_final_table mem_env c).

(** ** Metadata values and JSON

    A metadata value is a Python value that [json.dumps] accepts: [None],
    a bool, an int, a float, a str, a list, a tuple, or a dict with str
    keys (the items in insertion order).  Floats are IEEE values; how
    Python writes a finite one down ([float.__repr__]) and reads one
    ([float(text)]) are parameters, [float_repr] and [float_of_string], of
    the encoder and the decoder. *)
Unset Elimination Schemes.
Inductive pyval : Type :=
| PNone
| PBool (b : bool)
| PInt (z : Z)
| PFloat (f : spec_float)
| PStr (s : string)
| PList (l : list pyval)
| PTuple (l : list pyval)
| PDict (d : list (string * pyval)).
Set Elimination Schemes.

(** Induction on values, with the hypothesis for every element of a list
    or tuple and every value of a dict. *)
Fixpoint pyval_ind (P : pyval -> Prop)
    (HNone : P PNone) (HBool : forall b, P (PBool b)) (HInt : forall z, P (PInt z))
    (HFloat : forall f, P (PFloat f)) (HStr : forall s, P (PStr s))
    (HList : forall l, Forall P l -> P (PList l))
    (HTuple : forall l, Forall P l -> P (PTuple l))
    (HDict : forall d, Forall (fun kv => P (snd kv)) d -> P (PDict d))
    (v : pyval) {struct v} : P v :=
  match v with
  | PNone => HNone
  | PBool b => HBool b
  | PInt z => HInt z
  | PFloat f => HFloat f
  | PStr s => HStr s
  | PList l =>
      HList l ((fix go (l : list pyval) : Forall P l :=
                  match l with
                  | [] => @List.Forall_nil _ P
                  | x :: r =>
                      @List.Forall_cons _ P x r
                        (pyval_ind P HNone HBool HInt HFloat HStr HList HTuple HDict x)
                        (go r)
                  end) l)
  | PTuple l =>
      HTuple l ((fix go (l : list pyval) : Forall P l :=
                   match l with
                   | [] => @List.Forall_nil _ P
                   | x :: r =>
                       @List.Forall_cons _ P x r
                         (pyval_ind P HNone HBool HInt HFloat HStr HList HTuple HDict x)
                         (go r)
                   end) l)
  | PDict d =>
      HDict d ((fix go (d : list (string * pyval)) : Forall (fun kv => P (snd kv)) d :=
                  match d with
                  | [] => @List.Forall_nil _ (fun kv => P (snd kv))
                  | kv :: r =>
                      @List.Forall_cons _ (fun kv => P (snd kv)) kv r
                        (pyval_ind P HNone HBool HInt HFloat HStr HList HTuple HDict
                           (snd kv))
                        (go r)
                  end) d)
  end.

(** [isinstance(value, (str, int, float, bool))]. *)
Definition is_primitive (value : pyval) : bool :=
  match value with
  | PStr _ | PInt _ | PFloat _ | PBool _ => true
  | PNone | PList _ | PTuple _ | PDict _ => false
  end.

Definition dquote : ascii := ascii_of_N 34.
Definition backslash : ascii := ascii_of_N 92.

(** *** [json.dumps], with its defaults ([ensure_ascii], [allow_nan],
    [", "], [": "]) *)

Definition hex_digit (n : N) : ascii :=
  ascii_of_N (if (n <? 10)%N then 48 + n else 87 + n).

(** One character of a string, escaped: the two-character escapes, the
    printable ASCII characters as they are, [\u00xx] for the rest. *)
Definition escape_char (c : ascii) : string :=
  let n := N_of_ascii c in
  if (n =? 34)%N then String backslash (String dquote "")
  else if (n =? 92)%N then String backslash (String backslash "")
  else if (n =? 10)%N then String backslash "n"
  else if (n =? 13)%N then String backslash "r"
  else if (n =? 9)%N then String backslash "t"
  else if (n =? 8)%N then String backslash "b"
  else if (n =? 12)%N then String backslash "f"
  else if ((32 <=? n) && (n <=? 126))%N then String c ""
  else String backslash
         (String "u" (String "0" (String "0"
            (String (hex_digit (n / 16)) (String (hex_digit (n mod 16)) ""))))).

Fixpoint escape (s : string) : string :=
  match s with
  | EmptyString => EmptyString
  | String c r => escape_char c +:+ escape r
  end.

Definition quote (s : string) : string :=
  String dquote (escape s +:+ String dquote "").

Fixpoint string_of_uint (u : Decimal.uint) : string :=
  match u with
  | Decimal.Nil => ""
  | Decimal.D0 r => String "0" (string_of_uint r)
  | Decimal.D1 r => String "1" (string_of_uint r)
  | Decimal.D2 r => String "2" (string_of_uint r)
  | Decimal.D3 r => String "3" (string_of_uint r)
  | Decimal.D4 r => String "4" (string_of_uint r)
  | Decimal.D5 r => String "5" (string_of_uint r)
  | Decimal.D6 r => String "6" (string_of_uint r)
  | Decimal.D7 r => String "7" (string_of_uint r)
  | Decimal.D8 r => String "8" (string_of_uint r)
  | Decimal.D9 r => String "9" (string_of_uint r)
  end.

Definition string_of_Z (z : Z) : string :=
  match z with
  | Z0 => "0"
  | Zpos p => string_of_uint (Pos.to_uint p)
  | Zneg p => String "-" (string_of_uint (Pos.to_uint p))
  end.

(** The encoder's [floatstr]: the three non-finite values have names, a
    finite float is written by [float.__repr__]. *)
Definition floatstr (float_repr : spec_float -> string) (f : spec_float) : string :=
  match f with
  | S754_nan => "NaN"
  | S754_infinity false => "Infinity"
  | S754_infinity true => "-Infinity"
  | _ => float_repr f
  end.

(** A tuple is written as a list is. *)
Fixpoint json_dumps (float_repr : spec_float -> string) (v : pyval) : string :=
  match v with
  | PNone => "null"
  | PBool true => "true"
  | PBool false => "false"
  | PInt z => string_of_Z z
  | PFloat f => floatstr float_repr f
  | PStr s => quote s
  | PList l | PTuple l =>
      "[" +:+ String.concat ", " (List.map (json_dumps float_repr) l) +:+ "]"
  | PDict d =>
      "{" +:+ String.concat ", "
                (List.map (fun kv => quote (fst kv) +:+ ": "
                                     +:+ json_dumps float_repr (snd kv)) d)
          +:+ "}"
  end.

(** *** [json.loads]

    The decoder follows the JSON grammar on strings of code points below
    256; it gives [None] where Python raises, and also on a [\u] escape of
    256 or more, which is outside this model. *)

Definition is_ws (c : ascii) : bool :=
  let n := N_of_ascii c in
  ((n =? 32) || (n =? 9) || (n =? 10) || (n =? 13))%N.

Fixpoint skip_ws (s : string) : string :=
  match s with
  | String c r => if is_ws c then skip_ws r else s
  | EmptyString => EmptyString
  end.

Definition hex_value (c : ascii) : option N :=
  let n := N_of_ascii c in
  if ((48 <=? n) && (n <=? 57))%N then Some (n - 48)%N
  else if ((97 <=? n) && (n <=? 102))%N then Some (n - 87)%N
  else if ((65 <=? n) && (n <=? 70))%N then Some (n - 55)%N
  else None.

Definition hex4 (h1 h2 h3 h4 : ascii) : option N :=
  match hex_value h1, hex_value h2, hex_value h3, hex_value h4 with
  | Some a, Some b, Some c, Some d => Some (((a * 16 + b) * 16 + c) * 16 + d)%N
  | _, _, _, _ => None
  end.

(** The character after a backslash, other than [u]. *)
Definition unescape (e : ascii) : option ascii :=
  let n := N_of_ascii e in
  if (n =? 34)%N then Some dquote
  else if (n =? 92)%N then Some backslash
  else if (n =? 47)%N then Some "/"%char
  else if (n =? 98)%N then Some (ascii_of_N 8)
  else if (n =? 102)%N then Some (ascii_of_N 12)
  else if (n =? 110)%N then Some (ascii_of_N 10)
  else if (n =? 114)%N then Some (ascii_of_N 13)
  else if (n =? 116)%N then Some (ascii_of_N 9)
  else None.

Definition cons_char (c : ascii) (r : option (string * string)) : option (string * string) :=
  match r with
  | Some (s, rest) => Some (String c s, rest)
  | None => None
  end.

(** The body of a string, after its opening quote, up to and including
    the closing quote. *)
Fixpoint read_string (s : string) : option (string * string) :=
  match s with
  | EmptyString => None
  | String c r =>
      if Ascii.eqb c dquote then Some (EmptyString, r)
      else if Ascii.eqb c backslash then
        match r with
        | EmptyString => None
        | String e r1 =>
            if Ascii.eqb e "u" then
              match r1 with
              | String h1 (String h2 (String h3 (String h4 r2))) =>
                  match hex4 h1 h2 h3 h4 with
                  | Some n => if (n <? 256)%N
                              then cons_char (ascii_of_N n) (read_string r2)
                              else None
                  | None => None
                  end
              | _ => None
              end
            else
              match unescape e with
              | Some c' => cons_char c' (read_string r1)
              | None => None
              end
        end
      else if (N_of_ascii c <? 32)%N then None
      else cons_char c (read_string r)
  end.

Definition digit_of (c : ascii) : option (Decimal.uint -> Decimal.uint) :=
  let n := N_of_ascii c in
  if (n =? 48)%N then Some Decimal.D0
  else if (n =? 49)%N then Some Decimal.D1
  else if (n =? 50)%N then Some Decimal.D2
  else if (n =? 51)%N then Some Decimal.D3
  else if (n =? 52)%N then Some Decimal.D4
  else if (n =? 53)%N then Some Decimal.D5
  else if (n =? 54)%N then Some Decimal.D6
  else if (n =? 55)%N then Some Decimal.D7
  else if (n =? 56)%N then Some Decimal.D8
  else if (n =? 57)%N then Some Decimal.D9
  else None.

Fixpoint scan_uint (s : string) : Decimal.uint * string :=
  match s with
  | EmptyString => (Decimal.Nil, EmptyString)
  | String c r =>
      match digit_of c with
      | Some d => let '(u, rest) := scan_uint r in (d u, rest)
      | None => (Decimal.Nil, s)
      end
  end.

Definition split_sign (s : string) : bool * string :=
  match s with
  | String c r => if Ascii.eqb c "-" then (true, r) else (false, s)
  | EmptyString => (false, s)
  end.

(** The decoder's number pattern is an integer part, then an optional
    fraction (a point and digits), then an optional exponent ([e] or [E],
    an optional sign, digits).  The fraction and the exponent, each with
    what follows it when it is there: *)
Definition match_frac (s : string) : option string :=
  match s with
  | String c r =>
      if Ascii.eqb c "." then
        match scan_uint r with
        | (Decimal.Nil, _) => None
        | (_, rest) => Some rest
        end
      else None
  | EmptyString => None
  end.

Definition skip_sign (s : string) : string :=
  match s with
  | String c r => if Ascii.eqb c "+" || Ascii.eqb c "-" then r else s
  | EmptyString => s
  end.

Definition match_exp (s : string) : option string :=
  match s with
  | String c r =>
      if Ascii.eqb c "e" || Ascii.eqb c "E" then
        match scan_uint (skip_sign r) with
        | (Decimal.Nil, _) => None
        | (_, rest) => Some rest
        end
      else None
  | EmptyString => None
  end.

(** The integer part is an optional minus sign, then [0] or a digit
    string that does not begin with [0] (the digits are their own normal
    form).  The result: the sign, the digits, whether a fraction or an
    exponent follows, and the rest of the text. *)
Definition match_number (s : string) : option (bool * Decimal.uint * bool * string) :=
  let '(negative, digits) := split_sign s in
  let '(u, r0) := scan_uint digits in
  if negb (Decimal.uint_beq (Decimal.unorm u) u) then None
  else
    let '(has_frac, r1) := match match_frac r0 with
                           | Some r => (true, r)
                           | None => (false, r0)
                           end in
    let '(has_exp, r2) := match match_exp r1 with
                          | Some r => (true, r)
                          | None => (false, r1)
                          end in
    Some (negative, u, has_frac || has_exp, r2).

(** The first [n] characters. *)
Fixpoint str_take (n : nat) (s : string) : string :=
  match n, s with
  | S n, String c r => String c (str_take n r)
  | _, _ => EmptyString
  end.

(** With a fraction or an exponent the matched text goes to [float],
    otherwise the number is an int. *)
Definition read_number (float_of_string : string -> spec_float) (s : string)
  : option (pyval * string) :=
  match match_number s with
  | Some (negative, u, false, rest) =>
      Some (PInt (if negative then (- Z.of_N (N.of_uint u))%Z else Z.of_N (N.of_uint u)),
            rest)
  | Some (_, _, true, rest) =>
      Some (PFloat (float_of_string (str_take (String.length s - String.length rest) s)),
            rest)
  | None => None
  end.

Fixpoint strip_prefix (p s : string) : option string :=
  match p, s with
  | EmptyString, _ => Some s
  | String a p', String b s' => if Ascii.eqb a b then strip_prefix p' s' else None
  | String _ _, EmptyString => None
  end.

(** The three names that are tried where no number matches. *)
Definition read_constant (s : string) : option (pyval * string) :=
  match strip_prefix "NaN" s with
  | Some rest => Some (PFloat S754_nan, rest)
  | None =>
      match strip_prefix "Infinity" s with
      | Some rest => Some (PFloat (S754_infinity false), rest)
      | None =>
          match strip_prefix "-Infinity" s with
          | Some rest => Some (PFloat (S754_infinity true), rest)
          | None => None
          end
      end
  end.

(** [dict(pairs)]. *)
Definition dict_of_pairs (pairs : list (string * pyval)) : list (string * pyval) :=
  fold_left (fun d kv => dict_setitem String.eqb (fst kv) (snd kv) d) pairs [].

Fixpoint parse_value (float_of_string : string -> spec_float) (fuel : nat) (s : string)
  : option (pyval * string) :=
  match fuel with
  | O => None
  | S fuel =>
      match skip_ws s with
      | String "n" (String "u" (String "l" (String "l" r))) => Some (PNone, r)
      | String "t" (String "r" (String "u" (String "e" r))) => Some (PBool true, r)
      | String "f" (String "a" (String "l" (String "s" (String "e" r)))) =>
          Some (PBool false, r)
      | String c r =>
          if Ascii.eqb c dquote then
            match read_string r with
            | Some (str, rest) => Some (PStr str, rest)
            | None => None
            end
          else if Ascii.eqb c "[" then
            match skip_ws r with
            | String "]" rest => Some (PList [], rest)
            | _ =>
                match parse_items float_of_string fuel r with
                | Some (l, rest) => Some (PList l, rest)
                | None => None
                end
            end
          else if Ascii.eqb c "{" then
            match skip_ws r with
            | String "}" rest => Some (PDict [], rest)
            | _ =>
                match parse_members float_of_string fuel r with
                | Some (pairs, rest) => Some (PDict (dict_of_pairs pairs), rest)
                | None => None
                end
            end
          else
            match read_number float_of_string (String c r) with
            | Some number => Some number
            | None => read_constant (String c r)
            end
      | EmptyString => None
      end
  end
with parse_items (float_of_string : string -> spec_float) (fuel : nat) (s : string)
  : option (list pyval * string) :=
  match fuel with
  | O => None
  | S fuel =>
      match parse_value float_of_string fuel s with
      | Some (v, r) =>
          match skip_ws r with
          | String "," r' =>
              match parse_items float_of_string fuel r' with
              | Some (l, rest) => Some (v :: l, rest)
              | None => None
              end
          | String "]" rest => Some ([v], rest)
          | _ => None
          end
      | None => None
      end
  end
with parse_members (float_of_string : string -> spec_float) (fuel : nat) (s : string)
  : option (list (string * pyval) * string) :=
  match fuel with
  | O => None
  | S fuel =>
      match skip_ws s with
      | String c r =>
          if Ascii.eqb c dquote then
            match read_string r with
            | Some (key, r1) =>
                match skip_ws r1 with
                | String ":" r2 =>
                    match parse_value float_of_string fuel r2 with
                    | Some (v, r3) =>
                        match skip_ws r3 with
                        | String "," r4 =>
                            match parse_members float_of_string fuel r4 with
                            | Some (pairs, rest) => Some ((key, v) :: pairs, rest)
                            | None => None
                            end
                        | String "}" rest => Some ([(key, v)], rest)
                        | _ => None
                        end
                    | None => None
                    end
                | _ => None
                end
            | None => None
            end
          else None
      | EmptyString => None
      end
  end.

(** The whole text is one value, white space apart.  The fuel is enough
    for any text of that length. *)
Definition json_loads (float_of_string : string -> spec_float) (s : string)
  : option pyval :=
  match parse_value float_of_string (2 * String.length s + 2) s with
  | Some (v, rest) =>
      match skip_ws rest with
      | EmptyString => Some v
      | String _ _ => None
      end
  | None => None
  end.

(** *** [VectaraIndexer._normalize] (indexer.py, lines 194-202) *)

Definition _normalize (float_repr : spec_float -> string)
    (metadata : list (string * pyval)) : list (string * pyval) :=
  fold_left (fun result kv =>
               if is_primitive (snd kv)
               then dict_setitem String.eqb (fst kv) (snd kv) result
               else dict_setitem String.eqb (fst kv)
                      (PStr (json_dumps float_repr (snd kv))) result)
            metadata [].

Fixpoint distinct (l : list string) : bool :=
  match l with
  | [] => true
  | x :: r => negb (existsb (String.eqb x) r) && distinct r
  end.

(** A text that is, all of it, a number with a fraction or an exponent. *)
Definition float_literal (text : string) : bool :=
  match match_number text with
  | Some (_, _, true, EmptyString) => true
  | _ => false
  end.

(** A float that compares equal to what its text decodes to.  A NaN does
    not: it is not equal to itself.  The infinities do, by their names.
    For a finite float this is what [float.__repr__] and [float] promise:
    the text is a number with a fraction or an exponent, and reading it
    gives the float back. *)
Definition float_round_trips (float_of_string : string -> spec_float)
    (float_repr : spec_float -> string) (f : spec_float) : Prop :=
  match f with
  | S754_nan => False
  | S754_infinity _ => True
  | _ => float_literal (float_repr f) = true /\ float_of_string (float_repr f) = f
  end.

(** JSON data: [None], bools, ints, strs, the floats in [P], and lists and
    dicts of JSON data, the keys of a dict distinct.  A tuple is not. *)
Unset Elimination Schemes.
Inductive json_data (P : spec_float -> Prop) : pyval -> Prop :=
| json_none : json_data P PNone
| json_bool (b : bool) : json_data P (PBool b)
| json_int (z : Z) : json_data P (PInt z)
| json_float (f : spec_float) : P f -> json_data P (PFloat f)
| json_str (s : string) : json_data P (PStr s)
| json_list (l : list pyval) : Forall (json_data P) l -> json_data P (PList l)
| json_dict (d : list (string * pyval)) :
    distinct (List.map fst d) = true ->
    Forall (fun kv => json_data P (snd kv)) d ->
    json_data P (PDict d).
Set Elimination Schemes.

(** What [_normalize] does to one value. *)
Definition normalize_value (float_repr : spec_float -> string) (value : pyval) : pyval :=
  if is_primitive value then value else PStr (json_dumps float_repr value).

(** *** Measures and character classes used in the round-trip proof *)

(** What may follow a value: nothing, a comma, or a closing bracket. *)
Definition delimited (rest : string) : bool :=
  match rest with
  | EmptyString => true
  | String c _ => Ascii.eqb c "," || Ascii.eqb c "]" || Ascii.eqb c "}"
  end.

(** A minus sign or a digit. *)
Definition number_head (c : ascii) : bool :=
  let n := N_of_ascii c in
  ((n =? 45) || ((48 <=? n) && (n <=? 57)))%N.

(** The first character of an encoded value. *)
Definition value_head (c : ascii) : bool :=
  let n := N_of_ascii c in
  (number_head c || (n =? 110) || (n =? 116) || (n =? 102) || (n =? 34)
   || (n =? 91) || (n =? 123) || (n =? 73) || (n =? 78))%N.

Fixpoint size (v : pyval) : nat :=
  match v with
  | PList l | PTuple l => S (list_sum (List.map (fun x => S (size x)) l))
  | PDict d => S (list_sum (List.map (fun kv => S (size (snd kv))) d))
  | _ => 1
  end.

Definition member_text (float_repr : spec_float -> string) (kv : string * pyval) : string :=
  quote (fst kv) +:+ ": " +:+ json_dumps float_repr (snd kv).

(** A value that decodes back from its encoding, whatever follows it. *)
Definition round_trips (float_of_string : string -> spec_float)
    (float_repr : spec_float -> string) (v : pyval) : Prop :=
  json_data (float_round_trips float_of_string float_repr) v ->
  forall (fuel : nat) (rest : string),
    (size v <= fuel)%nat ->
    delimited rest = true ->
    parse_value float_of_string fuel (json_dumps float_repr v +:+ rest) = Some (v, rest).

(** A printer and a reader that know one float, 0.5, for examples. *)
Definition demo_float_repr (f : spec_float) : string := "0.5".
Definition demo_float_of_string (text : string) : spec_float := S754_finite false 1 (-1).

(** Metadata dicts for examples: one of primitive values only, one with a
    list, a dict and [None] among its values, one with a tuple. *)
Definition primitive_metadata : list (string * pyval) :=
  [ ("_ab_stream", PStr "users"); ("age", PInt 41);
    ("score", PFloat (S754_finite false 1 (-1))); ("active", PBool true) ].

Definition mixed_metadata : list (string * pyval) :=
  [ ("_ab_stream", PStr "users");
    ("tags", PList [PStr "a b"; PInt (-7); PNone]);
    ("address", PDict [("city", PStr "Oslo"); ("zip", PInt 150);
                       ("lat", PFloat (S754_finite false 1 (-1)))]);
    ("deleted_at", PNone) ].

Definition tuple_metadata : list (string * pyval) :=
  [ ("_ab_stream", PStr "users"); ("pair", PTuple [PInt 1; PInt 2]) ].

(** ** VectaraIndexer: [index] (indexer.py, lines 88-90 and 170-192) *)

Record Chunk : Type := mkChunk {
  page_content : string;
  metadata : list (string * pyval);
  embedding : list spec_float }.

(** A set display whose element is a dict: a dict is not hashable, so
    building the set raises and there is no set to go on with. *)
Definition set_of_dict (element : list (string * pyval)) : result Empty_set :=
  Raise (TypeError "unhashable type: 'dict'").

(** Lines 170-192.  [uuid4] is the integer that [uuid.uuid4().int] draws.
    The request body is evaluated before [_request] is called: the
    attributes, the inner dict, then the set around it.  The call and the
    assertion after it are never reached. *)
Definition _index_document {R} (float_repr : spec_float -> string) (uuid4 : Z)
    (chunk : Chunk) : M (world R) unit :=
  let document_embedding := embedding chunk in
  let document_metadata := _normalize float_repr (metadata chunk) in
  i ← get_state;
  corpusId ← getattr "corpus_id" corpus_id;
  lift_result
    (set_of_dict
       [ ("documentId", PInt uuid4);
         ("metadataJson", PStr (json_dumps float_repr (PDict document_metadata)));
         ("section", PList [PDict [("title", PStr "Content");
                                   ("text", PStr (page_content chunk))]]) ])
  ≫= (fun document : Empty_set => match document return M (world R) unit with end).

(** Lines 88-90; the [n]-th chunk gets the [n]-th draw of [uuid4]. *)
Fixpoint index_from {R} (float_repr : spec_float -> string) (uuid4 : nat -> Z) (n : nat)
    (document_chunks : list Chunk) : M (world R) unit :=
  match document_chunks with
  | [] => mret tt
  | chunk :: rest =>
      _index_document float_repr (uuid4 n) chunk;;
      index_from float_repr uuid4 (S n) rest
  end.

Definition index {R} (float_repr : spec_float -> string) (uuid4 : nat -> Z)
    (document_chunks : list Chunk) : M (world R) unit :=
  index_from float_repr uuid4 0 document_chunks.

(** *** More remote services for examples *)

(** The demo service with a token endpoint that answers [r]. *)
Definition demo_env_token (r : result (string * Z)) : environment (list corpus) := {|
  clock := clock demo_env;
  token_endpoint := fun _ _ _ rem => (r, rem);
  api := api demo_env;
  format_exception := format_exception demo_env;
  METADATA_STREAM_FIELD := METADATA_STREAM_FIELD demo_env;
  METADATA_RECORD_ID_FIELD := METADATA_RECORD_ID_FIELD demo_env;
  py_str := py_str demo_env |}.

(** A service on which every query matches the documents [doc-1] and
    [doc-2], and deleting [doc-2] is answered with a non-empty body. *)
Definition docs_api (endpoint bearer customer : string) (data : request_data)
    (r : list corpus) : result response_json * list corpus :=
  match data with
  | QueryData _ _ _ _ => (Ok (QueryResponse ["doc-1"; "doc-2"]), r)
  | DeleteDocData _ _ documentId =>
      (Ok (DeleteDocResponse (String.eqb documentId "doc-2")), r)
  | _ => demo_api endpoint bearer customer data r
  end.

Definition docs_env : environment (list corpus) := {|
  clock := clock demo_env;
  token_endpoint := token_endpoint demo_env;
  api := docs_api;
  format_exception := format_exception demo_env;
  METADATA_STREAM_FIELD := METADATA_STREAM_FIELD demo_env;
  METADATA_RECORD_ID_FIELD := METADATA_RECORD_ID_FIELD demo_env;
  py_str := py_str demo_env |}.

(** Two states of the object with the same configuration and the same
    corpus binding: only the cached token may differ. *)
Definition same_binding (i i' : VectaraIndexer) : Prop :=
  customer_id i' = customer_id i /\ corpus_name i' = corpus_name i
  /\ client_id i' = client_id i /\ client_secret i' = client_secret i
  /\ corpus_id i' = corpus_id i.

(* ===================================================================== *)
(** * Theorems *)

(** ** SQLCache: name normalization *)

Lemma str_map_map f g s : str_map f (str_map g s) = str_map (fun c => f (g c)) s.
Proof. induction s as [|c r IH]; simpl; [reflexivity | now rewrite IH]. Qed.

Lemma str_map_ext f g s : (forall c, f c = g c) -> str_map f s = str_map g s.
Proof. intros E. induction s as [|c r IH]; simpl; [reflexivity | now rewrite E, IH]. Qed.

Lemma normalize_char_spec c :
  (if Ascii.eqb (if Ascii.eqb (lower_char c) " " then "_"%char else lower_char c) "-"
   then "_"%char
   else if Ascii.eqb (lower_char c) " " then "_"%char else lower_char c)
  = normalize_char c.
Proof. destruct c as [[] [] [] [] [] [] [] []]; reflexivity. Qed.

Lemma normalize_char_idem c : normalize_char (normalize_char c) = normalize_char c.
Proof. destruct c as [[] [] [] [] [] [] [] []]; reflexivity. Qed.

Lemma _normalize_table_name_map s :
  _normalize_table_name s = str_map normalize_char s.
Proof.
  unfold _normalize_table_name, replace_char, lower.
  rewrite !str_map_map. apply str_map_ext, normalize_char_spec.
Qed.

(** C7. Table-name and column-name normalization are one and the same
    function; it acts character by character (a space or a hyphen becomes
    an underscore, every other character is lowercased), it is idempotent,
    and it sends "My Stream-1" to "my_stream_1". *)
Theorem normalize_name_idempotent :
  (forall s, _normalize_table_name s = _normalize_column_name s)
  /\ (forall s, _normalize_table_name s = str_map normalize_char s)
  /\ (forall s, _normalize_table_name (_normalize_table_name s)
                = _normalize_table_name s)
  /\ (forall s, _normalize_column_name (_normalize_column_name s)
                = _normalize_column_name s)
  /\ _normalize_table_name "My Stream-1" = "my_stream_1"
  /\ _normalize_column_name "My Stream-1" = "my_stream_1".
Proof.
  assert (I : forall s, _normalize_table_name (_normalize_table_name s)
                        = _normalize_table_name s).
  { intros s. rewrite !_normalize_table_name_map, str_map_map.
    apply str_map_ext, normalize_char_idem. }
  repeat split; try reflexivity.
  - apply _normalize_table_name_map.
  - exact I.
  - exact I.
Qed.

(** ** The monad *)

Lemma bind_ok {S A B} (m : M S A) (k : A -> M S B) s a s' :
  m s = (Ok a, s') -> (m ≫= k) s = k a s'.
Proof. intros H. unfold mbind, M_bind. now rewrite H. Qed.

Lemma bind_raise {S A B} (m : M S A) (k : A -> M S B) s e s' :
  m s = (Raise e, s') -> (m ≫= k) s = (Raise e, s').
Proof. intros H. unfold mbind, M_bind. now rewrite H. Qed.

Lemma try_except_ok {S A} (m : M S A) h s a s' :
  m s = (Ok a, s') -> try_except m h s = (Ok a, s').
Proof. intros H. unfold try_except. now rewrite H. Qed.

Lemma try_except_raise {S A} (m : M S A) h s e s' :
  m s = (Raise e, s') -> try_except m h s = h e s'.
Proof. intros H. unfold try_except. now rewrite H. Qed.

(** ** VectaraIndexer: [delete] and [pre_sync] *)

(** C10. [delete] on an empty list of ids, and [pre_sync] on a catalog with
    no stream in overwrite mode, return without any request: the log, the
    remote state and the object are what they were. *)
Theorem delete_empty_and_pre_sync_idle {R} (E : environment R) (w : world R) :
  delete E [] w = (Ok tt, w)
  /\ (forall catalog : list ConfiguredAirbyteStream,
        Forall (fun s => destination_sync_mode s <> overwrite) catalog ->
        pre_sync E catalog w = (Ok tt, w)).
Proof.
  split; [reflexivity |].
  intros catalog H. unfold pre_sync.
  assert (Hn : streams_to_overwrite catalog = []).
  { unfold streams_to_overwrite.
    induction H as [|s l Hs _ IH]; [reflexivity |].
    simpl. destruct (destination_sync_mode s); try contradiction; exact IH. }
  now rewrite Hn.
Qed.

Lemma delete_empty_and_pre_sync_idle_witness :
  delete demo_env [] (demo_world []) = (Ok tt, demo_world [])
  /\ pre_sync demo_env [ConfiguredStream "users" append;
                        ConfiguredStream "orders" append_dedup] (demo_world [])
     = (Ok tt, demo_world []).
Proof.
  destruct (delete_empty_and_pre_sync_idle demo_env (demo_world [])) as [H1 H2].
  split; [exact H1 |].
  apply H2. repeat constructor; discriminate.
Defined.

(** ** VectaraIndexer: token refresh in [_request] *)

Lemma token_requests_app l1 l2 :
  token_requests (l1 ++ l2) = (token_requests l1 + token_requests l2)%nat.
Proof. unfold token_requests. now rewrite List.filter_app, length_app. Qed.

(** C5 (amended). A request made with a cached token whose remaining
    validity is at most 60 makes exactly one token request, first, and
    then - when that refresh succeeds - the API request with the fresh
    token; with more than 60 remaining it makes the API request with the
    cached token, no token request, and leaves the object as it was. *)
Theorem request_refreshes_within_margin {R} (E : environment R) (w : world R)
    (endpoint : string) (data : request_data) (tok : string) (exp : Z) :
  jwt_token (self w) = Some tok ->
  jwt_token_expires_ts (self w) = Some exp ->
  (exp - clock E (ticks w) <= 60 ->
     exists rest,
       log (snd (_request E endpoint data w))
       = log w ++ TokenRequest (customer_id (self w)) (client_id (self w))
                    (client_secret (self w)) :: rest
       /\ token_requests rest = 0%nat
       /\ match fst (token_endpoint E (customer_id (self w)) (client_id (self w))
                       (client_secret (self w)) (remote w)) with
          | Ok (fresh, _) =>
              rest = [ApiRequest endpoint fresh (customer_id (self w)) data]
          | Raise _ => rest = []
          end)
  /\ (60 < exp - clock E (ticks w) ->
        log (snd (_request E endpoint data w))
        = log w ++ [ApiRequest endpoint tok (customer_id (self w)) data]
        /\ self (snd (_request E endpoint data w)) = self w).
Proof.
  intros Htok Hexp. destruct w as [i rem t l]. simpl in *.
  split; intros Hm.
  - unfold _request, mbind, M_bind, now, getattr. simpl. rewrite Hexp.
    destruct (Z.leb_spec (exp - clock E t) 60) as [_|?]; [|lia].
    unfold _get_jwt_token, post_token, mbind, M_bind, now. simpl.
    destruct (token_endpoint E (customer_id i) (client_id i) (client_secret i) rem)
      as [[[fresh ein]|e] rem'] eqn:Ht; simpl.
    + unfold post_api. simpl.
      destruct (api E endpoint fresh (customer_id i) data rem') as [r rem''].
      simpl. eexists. rewrite <- app_assoc. simpl. repeat split; reflexivity.
    + exists []. repeat split; reflexivity.
  - unfold _request, mbind, M_bind, now, getattr. simpl. rewrite Hexp.
    destruct (Z.leb_spec (exp - clock E t) 60) as [?|_]; [lia|].
    simpl. rewrite Htok. unfold post_api. simpl.
    destruct (api E endpoint tok (customer_id i) data rem) as [r rem'].
    simpl. split; reflexivity.
Qed.

Lemma request_refreshes_within_margin_witness :
  (exists rest,
      log (snd (_request demo_env "list-corpora" (ListCorporaData 100 "docs")
                  (demo_world_with_token 1030)))
      = [] ++ TokenRequest "cust" "id" "secret" :: rest
      /\ token_requests rest = 0%nat
      /\ rest = [ApiRequest "list-corpora" "jwt" "cust" (ListCorporaData 100 "docs")])
  /\ log (snd (_request demo_env "list-corpora" (ListCorporaData 100 "docs")
                 (demo_world_with_token 2000)))
     = [ApiRequest "list-corpora" "old" "cust" (ListCorporaData 100 "docs")].
Proof.
  split.
  - apply (request_refreshes_within_margin demo_env (demo_world_with_token 1030)
             "list-corpora" (ListCorporaData 100 "docs") "old" 1030);
      [reflexivity | reflexivity | simpl; lia].
  - apply (request_refreshes_within_margin demo_env (demo_world_with_token 2000)
             "list-corpora" (ListCorporaData 100 "docs") "old" 2000);
      [reflexivity | reflexivity | simpl; lia].
Defined.

(** C5, as the claim words it, fails when exactly 60 seconds remain: the
    claim promises no token request there, the code makes one. *)
Lemma request_refreshes_at_sixty :
  ~ (60 <= 1060 - clock demo_env (ticks (demo_world_with_token 1060)) ->
     token_requests
       (log (snd (_request demo_env "list-corpora" (ListCorporaData 100 "docs")
                    (demo_world_with_token 1060)))) = 0%nat).
Proof. intros H. specialize (H ltac:(simpl; lia)). vm_compute in H. discriminate. Qed.

(** ** VectaraIndexer: [check] *)

Lemma api_requests_app l1 l2 :
  api_requests (l1 ++ l2) = api_requests l1 ++ api_requests l2.
Proof. unfold api_requests. apply flat_map_app. Qed.

(** A [_request] posts to the API at most once, and exactly once when it
    returns. *)
Lemma _request_api_requests {R} (E : environment R) endpoint data (w w' : world R) r :
  _request E endpoint data w = (r, w') ->
  api_requests (log w') = api_requests (log w) ++ [(endpoint, data)]
  \/ (api_requests (log w') = api_requests (log w) /\ exists e, r = Raise e).
Proof.
  destruct w as [i rem t l].
  unfold _request, mbind, M_bind, now, getattr. simpl.
  destruct (jwt_token_expires_ts i) as [exp|]; simpl;
    [| intros [= <- <-]; right; split; [reflexivity | eauto]].
  destruct (exp - clock E t <=? 60).
  - unfold _get_jwt_token, post_token, mbind, M_bind, now. simpl.
    destruct (token_endpoint E (customer_id i) (client_id i) (client_secret i) rem)
      as [[[fresh ein]|e] rem']; simpl.
    + unfold post_api. simpl.
      destruct (api E endpoint fresh (customer_id i) data rem') as [r' rem''].
      intros [= <- <-]. left. simpl. now rewrite !api_requests_app, <- app_assoc.
    + intros [= <- <-]. right. simpl. rewrite api_requests_app. simpl.
      rewrite app_nil_r. eauto.
  - simpl. destruct (jwt_token i) as [tok|]; simpl;
      [| intros [= <- <-]; right; split; [reflexivity | eauto]].
    unfold post_api. simpl.
    destruct (api E endpoint tok (customer_id i) data rem) as [r' rem'].
    intros [= <- <-]. left. simpl. now rewrite api_requests_app.
Qed.

Lemma _get_jwt_token_corpus_name {R} (E : environment R) (w w1 : world R) jwt :
  _get_jwt_token E w = (Ok jwt, w1) -> corpus_name (self w1) = corpus_name (self w).
Proof.
  destruct w as [i rem t l].
  unfold _get_jwt_token, post_token, mbind, M_bind, now. simpl.
  destruct (token_endpoint E (customer_id i) (client_id i) (client_secret i) rem)
    as [[[fresh ein]|e] rem']; simpl; [| discriminate].
  now intros [= <- <-].
Qed.

Section DictSetitem.
Context {K V : Type} (eqb : K -> K -> bool).
Hypothesis eqb_eq : forall x y, eqb x y = true <-> x = y.

Lemma dict_setitem_keys (k : K) (v : V) (d : list (K * V)) (a : K) :
  In a (List.map fst (dict_setitem eqb k v d)) <-> a = k \/ In a (List.map fst d).
Proof.
  induction d as [|[k' v'] r IH]; simpl; [intuition congruence |].
  destruct (eqb k k') eqn:Hk; simpl.
  - apply eqb_eq in Hk. subst. intuition congruence.
  - rewrite IH. intuition congruence.
Qed.

Lemma dict_setitem_NoDup (k : K) (v : V) (d : list (K * V)) :
  List.NoDup (List.map fst d) -> List.NoDup (List.map fst (dict_setitem eqb k v d)).
Proof.
  induction d as [|[k' v'] r IH]; simpl; intros H.
  - constructor; [tauto | constructor].
  - inversion H as [|? ? Hn Hr]; subst.
    destruct (eqb k k') eqn:Hk; simpl; [now constructor |].
    constructor; [| now apply IH].
    rewrite dict_setitem_keys. intros [E|?]; [| tauto].
    subst k'. assert (eqb k k = true) by now apply eqb_eq. congruence.
Qed.

Lemma dict_setitem_values (k : K) (v : V) (d : list (K * V)) (a : K) (b : V) :
  In (a, b) (dict_setitem eqb k v d) -> b = v \/ In (a, b) d.
Proof.
  induction d as [|[k' v'] r IH]; simpl.
  - intros [[= <- <-]|[]]. now left.
  - destruct (eqb k k') eqn:Hk; simpl.
    + intros [[= <- <-]|?]; [now left | right; now right].
    + intros [?|?]; [right; now left |].
      destruct IH as [?|?]; auto.
Qed.
End DictSetitem.

(** The comprehension of line 44 keeps one entry per distinct id among the
    corpora whose name is the configured one; every value is that name. *)
Lemma possible_corpora_spec name cs :
  let d := possible_corpora_ids_names_map name cs in
  List.NoDup (List.map fst d)
  /\ (forall a, In a (List.map fst d) <->
                exists c, In c cs /\ corpus_name_ c = name /\ corpus_id_ c = a)
  /\ (forall a b, In (a, b) d -> b = name).
Proof.
  unfold possible_corpora_ids_names_map.
  set (step := fun d c => if String.eqb (corpus_name_ c) name
                          then dict_setitem Z.eqb (corpus_id_ c) (corpus_name_ c) d else d).
  assert (G : forall cs d,
             List.NoDup (List.map fst d) ->
             (forall a b, In (a, b) d -> b = name) ->
             List.NoDup (List.map fst (fold_left step cs d))
             /\ (forall a, In a (List.map fst (fold_left step cs d)) <->
                           In a (List.map fst d)
                           \/ exists c, In c cs /\ corpus_name_ c = name /\ corpus_id_ c = a)
             /\ (forall a b, In (a, b) (fold_left step cs d) -> b = name)).
  { clear cs. induction cs as [|c cs IH]; intros d Hnd Hv; simpl.
    - repeat split; auto. intros [?|(c & [] & _)]; auto.
    - assert (Hnd' : List.NoDup (List.map fst (step d c))).
      { unfold step. destruct (String.eqb _ _); [now apply (dict_setitem_NoDup _ Z.eqb_eq) | auto]. }
      assert (Hv' : forall a b, In (a, b) (step d c) -> b = name).
      { unfold step. intros a b. destruct (String.eqb_spec (corpus_name_ c) name) as [Hn|Hn].
        - intros H. apply dict_setitem_values in H as [->|H]; eauto.
        - eauto. }
      destruct (IH _ Hnd' Hv') as (I1 & I2 & I3).
      repeat split; auto.
      + intros H. apply I2 in H as [H|(c' & Hc' & Hn & Hi)].
        * unfold step in H.
          destruct (String.eqb_spec (corpus_name_ c) name) as [Hn|Hn]; [| now left].
          apply (dict_setitem_keys _ Z.eqb_eq) in H as [->|H]; [right; eauto | now left].
        * right. eauto.
      + intros H. apply I2.
        destruct H as [H|(c' & [<-|Hc'] & Hn & Hi)].
        * left. unfold step. destruct (String.eqb _ _); [| exact H].
          apply (dict_setitem_keys _ Z.eqb_eq). now right.
        * left. unfold step. rewrite <- Hn, String.eqb_refl.
          apply (dict_setitem_keys _ Z.eqb_eq). now left.
        * right. eauto. }
  destruct (G cs [] (List.NoDup_nil _) (fun a b (H : In (a, b) []) => match H with end))
    as (G1 & G2 & G3).
  repeat split; auto.
  - intros H. apply G2 in H as [[]|H]. exact H.
  - intros H. apply G2. now right.
Qed.

(** C1. Once the token is there and [list-corpora] has answered with the
    corpora [cs], [check] does one of three things, according to the
    corpora of [cs] that carry the configured name:
    - they all have one id: it binds [corpus_id] to that id, makes no
      further request and returns [None];
    - there is none: it makes one [create-corpus] request, for the
      configured name with the two indexed text filter attributes; when
      that answers with an id, it binds [corpus_id] to it and returns
      [None], and when that fails it returns the formatted error;
    - two of them differ in id: it returns the "Multiple Corpora" string,
      with no further request and [corpus_id] left alone. *)
Theorem check_binds_creates_or_reports {R} (E : environment R)
    (w w1 w2 : world R) (jwt : string) (cs : list corpus) :
  _get_jwt_token E w = (Ok jwt, w1) ->
  jwt <> "" ->
  _request E "list-corpora" (ListCorporaData 100 (corpus_name (self w))) w1
  = (Ok (ListCorporaResponse cs), w2) ->
  (forall id,
      (exists c, In c cs /\ corpus_name_ c = corpus_name (self w) /\ corpus_id_ c = id) ->
      (forall c, In c cs -> corpus_name_ c = corpus_name (self w) -> corpus_id_ c = id) ->
      exists w', check E w = (Ok None, w')
                 /\ corpus_id (self w') = Some id
                 /\ log w' = log w2 /\ remote w' = remote w2)
  /\ ((forall c, In c cs -> corpus_name_ c <> corpus_name (self w)) ->
      forall r w3,
        _request E "create-corpus"
          (CreateCorpusData (corpus_name (self w))
             [ FilterAttribute (METADATA_STREAM_FIELD E) true
                 "FILTER_ATTRIBUTE_TYPE__TEXT" "FILTER_ATTRIBUTE_LEVEL__DOCUMENT";
               FilterAttribute (METADATA_RECORD_ID_FIELD E) true
                 "FILTER_ATTRIBUTE_TYPE__TEXT" "FILTER_ATTRIBUTE_LEVEL__DOCUMENT" ]) w2
        = (r, w3) ->
        match r with
        | Ok (CreateCorpusResponse cid) =>
            (exists w', check E w = (Ok None, w')
                        /\ corpus_id (self w') = Some cid
                        /\ log w' = log w3 /\ remote w' = remote w3)
            /\ length (List.filter
                         (fun q => String.eqb (fst q) "create-corpus")
                         (api_requests (log w3)))
               = S (length (List.filter
                              (fun q => String.eqb (fst q) "create-corpus")
                              (api_requests (log w2))))
        | Ok _ => check E w = (Ok (Some (format_exception E (KeyError "corpusId"))), w3)
        | Raise e => check E w = (Ok (Some (format_exception E e)), w3)
        end)
  /\ ((exists c1 c2, In c1 cs /\ In c2 cs
                     /\ corpus_name_ c1 = corpus_name (self w)
                     /\ corpus_name_ c2 = corpus_name (self w)
                     /\ corpus_id_ c1 <> corpus_id_ c2) ->
      check E w
      = (Ok (Some ("Multiple Corpora exist with name " +:+ corpus_name (self w))), w2)).
Proof.
  intros Hjwt Hne Hlist.
  pose proof (_get_jwt_token_corpus_name E w w1 jwt Hjwt) as Hname.
  destruct (possible_corpora_spec (corpus_name (self w)) cs) as (Hnd & Hkeys & Hvals).
  set (d := possible_corpora_ids_names_map (corpus_name (self w)) cs) in *.
  assert (Hbody :
    check E w =
    try_except (fun _ : world R =>
      (if (1 <? length d)%nat
       then mret (Some ("Multiple Corpora exist with name " +:+ corpus_name (self w)))
       else match d with
            | [(id, _)] => set_corpus_id id;; mret None
            | _ =>
                create_corpus_response ←
                  _request E "create-corpus"
                    (CreateCorpusData (corpus_name (self w)) (corpus_filter_attributes E));
                match create_corpus_response with
                | CreateCorpusResponse cid => set_corpus_id cid;; mret None
                | _ => mthrow (KeyError "corpusId")
                end
            end) w2)
      (fun e => mret (Some (format_exception E e))) w).
  { unfold check, try_except. unfold mbind at 1, M_bind at 1. rewrite Hjwt.
    destruct (String.eqb_spec jwt "") as [?|_]; [contradiction |].
    unfold mbind at 1, M_bind at 1, get_state at 1. cbv beta iota zeta. rewrite Hname.
    unfold mbind at 1, M_bind at 1. rewrite Hlist. reflexivity. }
  split; [| split].
  - intros id (c & Hc & Hcn & Hci) Hall.
    assert (Hd : d = [(id, corpus_name (self w))]).
    { assert (Hin : In id (List.map fst d)) by (apply Hkeys; eauto).
      assert (Hall' : forall a, In a (List.map fst d) -> a = id).
      { intros a Ha. apply Hkeys in Ha as (c' & ? & ? & <-). auto. }
      destruct d as [|[a b] [|[a' b'] r]]; simpl in *.
      - contradiction.
      - rewrite (Hall' a), (Hvals a b); auto.
      - exfalso. inversion Hnd as [|? ? Hn _]; subst. apply Hn.
        rewrite (Hall' a), (Hall' a'); auto. now left. }
    rewrite Hbody, Hd. unfold try_except. simpl.
    eexists. split; [reflexivity |]. simpl. auto.
  - intros Hnone r w3 Hcreate.
    assert (Hd : d = []).
    { destruct d as [|[a b] r']; [reflexivity |]. exfalso.
      assert (Hin : In a (List.map fst ((a, b) :: r'))) by now left.
      apply Hkeys in Hin as (c & Hc & Hcn & _). exact (Hnone c Hc Hcn). }
    rewrite Hbody, Hd. unfold try_except.
    change ((1 <? length (@nil (Z * string)))%nat) with false. cbv iota.
    pose proof Hcreate as Hcreate'.
    change [ FilterAttribute (METADATA_STREAM_FIELD E) true
               "FILTER_ATTRIBUTE_TYPE__TEXT" "FILTER_ATTRIBUTE_LEVEL__DOCUMENT";
             FilterAttribute (METADATA_RECORD_ID_FIELD E) true
               "FILTER_ATTRIBUTE_TYPE__TEXT" "FILTER_ATTRIBUTE_LEVEL__DOCUMENT" ]
      with (corpus_filter_attributes E) in Hcreate'.
    destruct r as [resp|e].
    + rewrite (bind_ok _ _ _ _ _ Hcreate').
      destruct resp as [| cid | |]; try reflexivity.
      split.
      * eexists. split; [reflexivity |]. simpl. auto.
      * apply _request_api_requests in Hcreate as [Hq|[_ [e He]]]; [| discriminate].
        rewrite Hq, List.filter_app, length_app. simpl. lia.
    + rewrite (bind_raise _ _ _ _ _ Hcreate'). reflexivity.
  - intros (c1 & c2 & H1 & H2 & Hn1 & Hn2 & Hdiff).
    assert (Hlen : (1 <? length d)%nat = true).
    { assert (In (corpus_id_ c1) (List.map fst d)) by (apply Hkeys; eauto).
      assert (In (corpus_id_ c2) (List.map fst d)) by (apply Hkeys; eauto).
      apply Nat.ltb_lt.
      destruct d as [|[a b] [|[a' b'] r]]; simpl in *; try lia; intuition congruence. }
    rewrite Hbody, Hlen. reflexivity.
Qed.

Lemma check_binds_creates_or_reports_witness :
  (exists w', check demo_env (demo_world [Corpus 7 "docs"; Corpus 8 "other"]) = (Ok None, w')
              /\ corpus_id (self w') = Some 7)
  /\ (exists w', check demo_env (demo_world [Corpus 8 "other"]) = (Ok None, w')
                 /\ corpus_id (self w') = Some 2
                 /\ remote w' = [Corpus 8 "other"; Corpus 2 "docs"])
  /\ (exists w', check demo_env (demo_world [Corpus 7 "docs"; Corpus 9 "docs"])
                 = (Ok (Some "Multiple Corpora exist with name docs"), w')
                 /\ corpus_id (self w') = None
                 /\ remote w' = [Corpus 7 "docs"; Corpus 9 "docs"]).
Proof.
  pose (run := fun r : list corpus =>
          let w1 := snd (_get_jwt_token demo_env (demo_world r)) in
          (w1, snd (_request demo_env "list-corpora" (ListCorporaData 100 "docs") w1))).
  split; [| split].
  - destruct (check_binds_creates_or_reports demo_env
                (demo_world [Corpus 7 "docs"; Corpus 8 "other"])
                (fst (run [Corpus 7 "docs"; Corpus 8 "other"]))
                (snd (run [Corpus 7 "docs"; Corpus 8 "other"]))
                "jwt" [Corpus 7 "docs"; Corpus 8 "other"]
                eq_refl ltac:(discriminate) eq_refl) as (H & _ & _).
    destruct (H 7) as (w' & Hc & Hi & _).
    + exists (Corpus 7 "docs"). simpl. auto.
    + intros c [<-|[<-|[]]]; simpl; [reflexivity | discriminate].
    + exists w'. auto.
  - destruct (check_binds_creates_or_reports demo_env
                (demo_world [Corpus 8 "other"])
                (fst (run [Corpus 8 "other"])) (snd (run [Corpus 8 "other"]))
                "jwt" [Corpus 8 "other"]
                eq_refl ltac:(discriminate) eq_refl) as (_ & H & _).
    assert (Hn : forall c, In c [Corpus 8 "other"] ->
                           corpus_name_ c <> corpus_name (self (demo_world [Corpus 8 "other"])))
      by (intros c [<-|[]]; discriminate).
    destruct (H Hn (Ok (CreateCorpusResponse 2))
                (snd (_request demo_env "create-corpus"
                        (CreateCorpusData "docs" (corpus_filter_attributes demo_env))
                        (snd (run [Corpus 8 "other"])))) eq_refl)
      as ((w' & Hc & Hi & _ & Hr) & _).
    exists w'. auto.
  - destruct (check_binds_creates_or_reports demo_env
                (demo_world [Corpus 7 "docs"; Corpus 9 "docs"])
                (fst (run [Corpus 7 "docs"; Corpus 9 "docs"]))
                (snd (run [Corpus 7 "docs"; Corpus 9 "docs"]))
                "jwt" [Corpus 7 "docs"; Corpus 9 "docs"]
                eq_refl ltac:(discriminate) eq_refl) as (_ & _ & H).
    eexists. split; [apply H | split; reflexivity].
    exists (Corpus 7 "docs"), (Corpus 9 "docs"). simpl.
    repeat split; auto; discriminate.
Defined.

(** ** SQLCache: the order on batch ids *)








(** ** SQLCache: [_finalize_batches], step by step *)






(** ** SQLCache: the merge/append step without MERGE support *)




(** ** SQLCache: append-mode finalize on the class as written *)

(** On the class itself - nothing overridden - [_write_files_to_new_table]
    raises before it reaches the database: it calls
    [_create_table_for_loading] with one argument where two are required.
    So finalize always raises and the database is untouched. *)
Lemma plain_finalize_raises {DB} (E : sql_environment DB) config catalog to_sql_type
    (stream_name : string) (batches : list (string * string)) (w : sql_world DB) :
  exists e w',
    _finalize_batches E (SQLCache_plain E config catalog to_sql_type) stream_name batches w
    = (Raise e, w')
    /\ db w' = db w /\ issued w' = issued w.
Proof.
  unfold _finalize_batches, mbind, M_bind, lift_result.
  destruct (py_max (List.map fst batches)) as [m|e]; [| eauto].
  unfold _get_temp_table_name, mbind, M_bind.
  destruct (String.eqb m ""); simpl; eauto.
Qed.

(** C3, at a failing input: append mode, one staged file of two rows, an
    empty database.  Finalize raises [TypeError]; no table was created and
    no row was loaded. *)
Theorem finalize_append_plain_class_raises :
  _finalize_batches mem_env (plain_cache APPEND) "users"
    [("01HA", "users-01HA.parquet")] empty_world
  = (Raise (TypeError
              "_create_table_for_loading() missing 1 required positional argument: 'batch_id'"),
     empty_world).
Proof. reflexivity. Qed.

(** With the three overrides of [stream_cache] finalize goes through, and
    shows the second obstacle to C3: each file replaces the temp table, so
    of two staged files (2 + 1 rows) only the last one's row arrives. *)
Lemma finalize_append_two_files_keeps_the_last :
  fst (_finalize_batches mem_env (stream_cache APPEND "users") "users"
         [("01HA", "users-01HA.parquet"); ("01HB", "users-01HB.parquet")] empty_world)
  = Ok tt
  /\ db (snd (_finalize_batches mem_env (stream_cache APPEND "users") "users"
                [("01HA", "users-01HA.parquet"); ("01HB", "users-01HB.parquet")]
                empty_world)) !! "users"
     = Some more_users_rows.
Proof. split; vm_compute; reflexivity. Qed.

(** ** SQLCache: the lifetime of the temp table *)





(** ** SQLCache: primary keys and the MERGE statement *)

Lemma fold_dict_setitem_keys {P K V} (eqb : K -> K -> bool)
    (eqb_eq : forall x y, eqb x y = true <-> x = y)
    (f : P -> K) (g : P -> V) (ps : list P) (d : list (K * V)) (a : K) :
  In a (List.map fst (fold_left (fun d p => dict_setitem eqb (f p) (g p) d) ps d))
  <-> In a (List.map fst d) \/ exists p, In p ps /\ f p = a.
Proof.
  revert d. induction ps as [|p ps IH]; intros d; simpl.
  - split; [auto | intros [?|(p & [] & _)]; auto].
  - rewrite IH, (dict_setitem_keys eqb eqb_eq). split.
    + intros [[->|?]|(q & ? & ?)]; eauto.
    + intros [?|(q & [<-|?] & ?)]; eauto.
Qed.

(** The columns of a stream: one per declared property, under its
    normalized name, and the two metadata columns. *)
Lemma _get_sql_column_definitions_keys (self : SQLCacheCore) (stream_name : string)
    (properties columns : list (string * string)) (a : string) :
  _get_stream_json_schema self stream_name = Ok properties ->
  _get_sql_column_definitions self stream_name = Ok columns ->
  In a (List.map fst columns)
  <-> a = "_airbyte_loaded_at" \/ a = "_airbyte_extracted_at"
      \/ exists p, In p properties /\ self__normalize_column_name self (fst p) = a.
Proof.
  intros Hs. unfold _get_sql_column_definitions. rewrite Hs. intros [= <-].
  rewrite !(dict_setitem_keys String.eqb String.eqb_eq).
  rewrite (fold_dict_setitem_keys String.eqb String.eqb_eq
             (fun p => self__normalize_column_name self (fst p))
             (fun p => to_sql_type self (snd p))).
  simpl. tauto.
Qed.

(** C9. [_get_primary_keys] returns the empty list for every stream.  So
    in the MERGE that [_merge_temp_table_to_final_table] sends (when
    [_get_primary_keys] is not overridden and an engine is at hand) the ON
    clause is empty and the SET clause ranges over all the columns: every
    declared property, under its normalized name, is among them. *)
Theorem primary_keys_empty_all_columns_non_key {DB} (E : sql_environment DB)
    (self : SQLCacheCore) (stream_name : string) :
  _get_primary_keys stream_name = []
  /\ (forall columns : list string,
        non_pk_columns columns (_get_primary_keys stream_name) = list_to_set columns)
  /\ join_clause (_get_primary_keys stream_name) = ""
  /\ (forall temp_table_name final_table_name columns engine (w : sql_world DB),
        self__get_primary_keys self = _get_primary_keys ->
        _get_sql_column_definitions self stream_name = Ok columns ->
        get_sql_engine self = Ok engine ->
        _merge_temp_table_to_final_table E self
          [temp_table_name; final_table_name; stream_name] w
        = run_statement E engine
            (MergeInto final_table_name temp_table_name ""
               (list_to_set (List.map fst columns)) (List.map fst columns)) w
        /\ (forall properties p,
              _get_stream_json_schema self stream_name = Ok properties ->
              In p properties ->
              self__normalize_column_name self (fst p)
              ∈ (list_to_set (List.map fst columns) : gset string))).
Proof.
  assert (Hset : forall columns : list string,
             non_pk_columns columns (_get_primary_keys stream_name) = list_to_set columns).
  { intros columns. unfold non_pk_columns, _get_primary_keys.
    rewrite list_to_set_nil. apply difference_empty_L. }
  split; [reflexivity | split; [exact Hset | split; [reflexivity |]]].
  intros temp_table_name final_table_name columns engine w Hpk Hcols Hengine.
  split.
  - unfold _merge_temp_table_to_final_table, mbind, M_bind, lift_result.
    rewrite Hcols, Hengine, Hpk.
    change (join_clause (_get_primary_keys stream_name)) with "".
    now rewrite (Hset (List.map fst columns)).
  - intros properties p Hs Hp. apply elem_of_list_to_set, list_elem_of_In.
    apply (_get_sql_column_definitions_keys self stream_name properties columns); eauto.
Qed.

Lemma primary_keys_empty_all_columns_non_key_witness :
  _merge_temp_table_to_final_table mem_env (stream_core REPLACE)
    ["users_01ha"; "users"; "users"] empty_world
  = run_statement mem_env "sqlite://"
      (MergeInto "users" "users_01ha" ""
         (list_to_set ["id"; "full_name"; "_airbyte_extracted_at"; "_airbyte_loaded_at"])
         ["id"; "full_name"; "_airbyte_extracted_at"; "_airbyte_loaded_at"]) empty_world
  /\ _normalize_column_name "Full Name"
     ∈ (list_to_set ["id"; "full_name"; "_airbyte_extracted_at"; "_airbyte_loaded_at"]
        : gset string).
Proof.
  destruct (primary_keys_empty_all_columns_non_key mem_env (stream_core REPLACE) "users")
    as (_ & _ & _ & H).
  destruct (H "users_01ha" "users"
              [("id", "BIGINT"); ("full_name", "VARCHAR");
               ("_airbyte_extracted_at", "TIMESTAMP"); ("_airbyte_loaded_at", "TIMESTAMP")]
              "sqlite://" empty_world eq_refl eq_refl eq_refl) as [H1 H2].
  split; [exact H1 |].
  apply (H2 [("Id", "integer"); ("Full Name", "string")] ("Full Name", "string") eq_refl).
  right. now left.
Defined.

(** ** JSON: strings *)

Lemma append_nil_l (t : string) : "" +:+ t = t.
Proof. reflexivity. Qed.

Lemma append_nil_r (t : string) : t +:+ "" = t.
Proof. induction t as [|c t IH]; [reflexivity |]. now rewrite <- IH at 2. Qed.

Lemma append_cons (c : ascii) (s t : string) : String c s +:+ t = String c (s +:+ t).
Proof. reflexivity. Qed.

Lemma append_assoc (a b c : string) : (a +:+ b) +:+ c = a +:+ (b +:+ c).
Proof.
  induction a as [|x a IH]; [reflexivity |].
  rewrite !append_cons. now rewrite IH.
Qed.

Lemma append_length (a b : string) :
  String.length (a +:+ b) = (String.length a + String.length b)%nat.
Proof.
  induction a as [|x a IH]; [reflexivity |].
  rewrite append_cons. simpl. now rewrite IH.
Qed.

(** Reading back one escaped character. *)
Lemma read_string_escape_char (c : ascii) (t : string) :
  read_string (escape_char c +:+ t) = cons_char c (read_string t).
Proof. destruct c as [[] [] [] [] [] [] [] []]; reflexivity. Qed.

Lemma read_string_escape (s rest : string) :
  read_string (escape s +:+ String dquote rest) = Some (s, rest).
Proof.
  induction s as [|c s IH]; [reflexivity |].
  change (escape (String c s)) with (escape_char c +:+ escape s).
  rewrite append_assoc, read_string_escape_char, IH. reflexivity.
Qed.

Lemma quote_append (s rest : string) :
  quote s +:+ rest = String dquote (escape s +:+ String dquote rest).
Proof.
  unfold quote. rewrite append_cons, append_assoc. reflexivity.
Qed.

(** ** JSON: numbers *)

Lemma delimited_no_number (rest : string) :
  delimited rest = true ->
  scan_uint rest = (Decimal.Nil, rest) /\ match_frac rest = None
  /\ match_exp rest = None /\ skip_sign rest = rest
  /\ split_sign rest = (false, rest) /\ skip_ws rest = rest.
Proof.
  destruct rest as [|c r]; [repeat split |].
  destruct c as [[] [] [] [] [] [] [] []]; try discriminate; repeat split.
Qed.

Lemma scan_uint_app (s rest : string) :
  delimited rest = true ->
  forall u r, scan_uint s = (u, r) -> scan_uint (s +:+ rest) = (u, r +:+ rest).
Proof.
  intros H. induction s as [|c s IH]; intros u r.
  - intros [= <- <-]. rewrite append_nil_l. now apply delimited_no_number.
  - rewrite append_cons. simpl scan_uint.
    destruct (digit_of c) as [d|].
    + destruct (scan_uint s) as [u' r'] eqn:Hs. intros [= <- <-].
      now rewrite (IH u' r' eq_refl).
    + intros [= <- <-]. reflexivity.
Qed.

Lemma scan_uint_string_of_uint (u : Decimal.uint) : scan_uint (string_of_uint u) = (u, "").
Proof. induction u; simpl; try rewrite IHu; reflexivity. Qed.

Lemma match_frac_app (s rest : string) :
  delimited rest = true ->
  match_frac (s +:+ rest)
  = match match_frac s with Some r => Some (r +:+ rest) | None => None end.
Proof.
  intros H. destruct s as [|c s].
  - rewrite append_nil_l. now apply delimited_no_number.
  - rewrite append_cons. unfold match_frac.
    destruct (Ascii.eqb c "."); [| reflexivity].
    destruct (scan_uint s) as [u r] eqn:Hs.
    rewrite (scan_uint_app s rest H u r Hs). now destruct u.
Qed.

Lemma skip_sign_app (s rest : string) :
  delimited rest = true -> skip_sign (s +:+ rest) = skip_sign s +:+ rest.
Proof.
  intros H. destruct s as [|c s].
  - rewrite append_nil_l. now apply delimited_no_number.
  - rewrite append_cons. unfold skip_sign.
    now destruct (Ascii.eqb c "+" || Ascii.eqb c "-").
Qed.

Lemma match_exp_app (s rest : string) :
  delimited rest = true ->
  match_exp (s +:+ rest)
  = match match_exp s with Some r => Some (r +:+ rest) | None => None end.
Proof.
  intros H. destruct s as [|c s].
  - rewrite append_nil_l. now apply delimited_no_number.
  - rewrite append_cons. unfold match_exp.
    destruct (Ascii.eqb c "e" || Ascii.eqb c "E"); [| reflexivity].
    rewrite (skip_sign_app s rest H).
    destruct (scan_uint (skip_sign s)) as [u r] eqn:Hs.
    rewrite (scan_uint_app _ rest H u r Hs). now destruct u.
Qed.

(** What the number pattern matches does not depend on what follows, as
    long as a delimiter follows. *)
Lemma match_number_app (s rest : string) negative u is_float r :
  delimited rest = true ->
  match_number s = Some (negative, u, is_float, r) ->
  match_number (s +:+ rest) = Some (negative, u, is_float, r +:+ rest).
Proof.
  intros H. unfold match_number.
  assert (Hsign : split_sign (s +:+ rest)
                  = (fst (split_sign s), snd (split_sign s) +:+ rest)).
  { destruct s as [|c s].
    - rewrite append_nil_l. now apply delimited_no_number.
    - rewrite append_cons. unfold split_sign. now destruct (Ascii.eqb c "-"). }
  rewrite Hsign. destruct (split_sign s) as [n digits]. simpl fst. simpl snd.
  destruct (scan_uint digits) as [u0 r0] eqn:Hu.
  rewrite (scan_uint_app digits rest H u0 r0 Hu).
  destruct (negb (Decimal.uint_beq (Decimal.unorm u0) u0)); [discriminate |].
  rewrite (match_frac_app r0 rest H).
  destruct (match_frac r0) as [r1|].
  - rewrite (match_exp_app r1 rest H).
    destruct (match_exp r1) as [r2|]; intros [= <- <- <- <-]; reflexivity.
  - rewrite (match_exp_app r0 rest H).
    destruct (match_exp r0) as [r2|]; intros [= <- <- <- <-]; reflexivity.
Qed.

Lemma str_take_all (s : string) : str_take (String.length s) s = s.
Proof. induction s as [|c s IH]; simpl; [reflexivity | now rewrite IH]. Qed.

Lemma str_take_app (n : nat) (s rest : string) :
  (n <= String.length s)%nat -> str_take n (s +:+ rest) = str_take n s.
Proof.
  revert n. induction s as [|c s IH]; intros [|n] H.
  - reflexivity.
  - simpl in H. lia.
  - reflexivity.
  - rewrite append_cons. simpl in *. rewrite IH by lia. reflexivity.
Qed.

(** So with the number reader. *)
Lemma read_number_app (float_of_string : string -> spec_float) (s rest : string) v r :
  delimited rest = true ->
  read_number float_of_string s = Some (v, r) ->
  read_number float_of_string (s +:+ rest) = Some (v, r +:+ rest).
Proof.
  intros H. unfold read_number.
  destruct (match_number s) as [[[[negative u] is_float] r']|] eqn:Hm; [| discriminate].
  rewrite (match_number_app s rest negative u is_float r' H Hm).
  destruct is_float; intros [= <- <-]; [| reflexivity].
  rewrite !append_length.
  replace (String.length s + String.length rest
           - (String.length r' + String.length rest))%nat
    with (String.length s - String.length r')%nat by lia.
  rewrite str_take_app by lia. reflexivity.
Qed.

Lemma uint_beq_refl (u : Decimal.uint) : Decimal.uint_beq u u = true.
Proof. induction u; simpl; auto. Qed.

Lemma unorm_to_uint (n : N) : Decimal.unorm (N.to_uint n) = N.to_uint n.
Proof.
  rewrite <- (DecimalN.Unsigned.to_of (N.to_uint n)).
  now rewrite DecimalN.Unsigned.of_to.
Qed.

(** The digits of a positive number begin with a digit. *)
Lemma string_of_uint_head (p : positive) :
  exists c t, string_of_uint (Pos.to_uint p) = String c t
              /\ number_head c = true /\ Ascii.eqb c "-" = false.
Proof.
  pose proof (DecimalPos.Unsigned.to_uint_nonnil p) as H.
  destruct (Pos.to_uint p); [contradiction | ..]; simpl; eauto.
Qed.

Lemma string_of_Z_head (z : Z) :
  exists c t, string_of_Z z = String c t /\ number_head c = true.
Proof.
  destruct z as [|p|p]; simpl.
  - eauto.
  - destruct (string_of_uint_head p) as (c & t & H & Hc & _). eauto.
  - eauto.
Qed.

Lemma match_number_int (negative : bool) (n : N) (s : string) :
  split_sign s = (negative, string_of_uint (N.to_uint n)) ->
  match_number s = Some (negative, N.to_uint n, false, "").
Proof.
  intros H. unfold match_number. rewrite H. cbv beta iota.
  rewrite scan_uint_string_of_uint. cbv beta iota.
  rewrite unorm_to_uint, uint_beq_refl. reflexivity.
Qed.

Lemma read_number_string_of_Z (float_of_string : string -> spec_float) (z : Z) :
  read_number float_of_string (string_of_Z z) = Some (PInt z, "").
Proof.
  unfold read_number. destruct z as [|p|p].
  - reflexivity.
  - rewrite (match_number_int false (Npos p)).
    + now rewrite DecimalN.Unsigned.of_to.
    + simpl string_of_Z. simpl N.to_uint.
      destruct (string_of_uint_head p) as (c & t & -> & _ & Hc).
      unfold split_sign. now rewrite Hc.
  - rewrite (match_number_int true (Npos p)).
    + now rewrite DecimalN.Unsigned.of_to.
    + reflexivity.
Qed.

(** The text of a float that round-trips: a number, read back as the
    float. *)
Lemma read_number_float_literal (float_of_string : string -> spec_float) (text : string) :
  float_literal text = true ->
  read_number float_of_string text = Some (PFloat (float_of_string text), "").
Proof.
  unfold float_literal, read_number.
  destruct (match_number text) as [[[[negative u] [|]] [|c r]]|]; try discriminate.
  intros _. simpl String.length. now rewrite Nat.sub_0_r, str_take_all.
Qed.

Lemma match_number_head (s : string) :
  match_number s <> None ->
  exists c t, s = String c t /\ number_head c = true.
Proof.
  destruct s as [|c t]; [intros H; now contradiction H |].
  intros H. exists c, t. split; [reflexivity |].
  unfold match_number, split_sign in H.
  destruct c as [[] [] [] [] [] [] [] []]; try reflexivity;
    exfalso; apply H; reflexivity.
Qed.

Lemma floatstr_head (float_of_string : string -> spec_float)
    (float_repr : spec_float -> string) (f : spec_float) :
  float_round_trips float_of_string float_repr f ->
  exists c t, floatstr float_repr f = String c t /\ value_head c = true.
Proof.
  assert (G : forall f, float_literal (float_repr f) = true ->
                        exists c t, float_repr f = String c t /\ value_head c = true).
  { intros g Hg. destruct (match_number_head (float_repr g)) as (c & t & Ht & Hc).
    - unfold float_literal in Hg. now destruct (match_number (float_repr g)).
    - exists c, t. split; [exact Ht |]. unfold value_head. now rewrite Hc. }
  destruct f as [s|[|]| |s m e]; simpl; try contradiction; eauto.
  - intros [H _]. apply (G _ H).
  - intros [H _]. apply (G _ H).
Qed.

(** ** JSON: values *)

(** The decoder, one step at a time. *)
Lemma parse_value_ws float_of_string (fuel : nat) (s : string) :
  parse_value float_of_string fuel (String " " s) = parse_value float_of_string fuel s.
Proof. destruct fuel; reflexivity. Qed.

Lemma parse_items_eq float_of_string (fuel : nat) (s : string) :
  parse_items float_of_string (S fuel) s
  = match parse_value float_of_string fuel s with
    | Some (v, r) =>
        match skip_ws r with
        | String "," r' =>
            match parse_items float_of_string fuel r' with
            | Some (l, rest) => Some (v :: l, rest)
            | None => None
            end
        | String "]" rest => Some ([v], rest)
        | _ => None
        end
    | None => None
    end.
Proof. reflexivity. Qed.

Lemma parse_items_ws float_of_string (fuel : nat) (s : string) :
  parse_items float_of_string fuel (String " " s) = parse_items float_of_string fuel s.
Proof. destruct fuel; [reflexivity |]. now rewrite !parse_items_eq, parse_value_ws. Qed.

Lemma parse_members_eq float_of_string (fuel : nat) (s : string) :
  parse_members float_of_string (S fuel) (String dquote s)
  = match read_string s with
    | Some (key, r1) =>
        match skip_ws r1 with
        | String ":" r2 =>
            match parse_value float_of_string fuel r2 with
            | Some (v, r3) =>
                match skip_ws r3 with
                | String "," r4 =>
                    match parse_members float_of_string fuel r4 with
                    | Some (pairs, rest) => Some ((key, v) :: pairs, rest)
                    | None => None
                    end
                | String "}" rest => Some ([(key, v)], rest)
                | _ => None
                end
            | None => None
            end
        | _ => None
        end
    | None => None
    end.
Proof. reflexivity. Qed.

Lemma parse_members_ws float_of_string (fuel : nat) (s : string) :
  parse_members float_of_string fuel (String " " s)
  = parse_members float_of_string fuel s.
Proof. destruct fuel; reflexivity. Qed.

Lemma parse_value_number float_of_string (fuel : nat) (c : ascii) (r : string) :
  number_head c = true ->
  parse_value float_of_string (S fuel) (String c r)
  = match read_number float_of_string (String c r) with
    | Some number => Some number
    | None => read_constant (String c r)
    end.
Proof. destruct c as [[] [] [] [] [] [] [] []]; try discriminate; reflexivity. Qed.

Lemma parse_value_infinity float_of_string (fuel : nat) (negative : bool) (rest : string) :
  parse_value float_of_string (S fuel)
    (floatstr (fun _ => "") (S754_infinity negative) +:+ rest)
  = Some (PFloat (S754_infinity negative), rest).
Proof. destruct negative; reflexivity. Qed.

Lemma parse_value_string float_of_string (fuel : nat) (r : string) :
  parse_value float_of_string (S fuel) (String dquote r)
  = match read_string r with
    | Some (str, rest) => Some (PStr str, rest)
    | None => None
    end.
Proof. reflexivity. Qed.

Lemma parse_value_list float_of_string (fuel : nat) (c : ascii) (t : string) :
  value_head c = true ->
  parse_value float_of_string (S fuel) (String "[" (String c t))
  = match parse_items float_of_string fuel (String c t) with
    | Some (l, rest) => Some (PList l, rest)
    | None => None
    end.
Proof. destruct c as [[] [] [] [] [] [] [] []]; try discriminate; reflexivity. Qed.

Lemma parse_value_dict float_of_string (fuel : nat) (t : string) :
  parse_value float_of_string (S fuel) (String "{" (String dquote t))
  = match parse_members float_of_string fuel (String dquote t) with
    | Some (pairs, rest) => Some (PDict (dict_of_pairs pairs), rest)
    | None => None
    end.
Proof. reflexivity. Qed.

(** An encoded value begins with a character that starts a value. *)
Lemma json_dumps_head float_of_string (float_repr : spec_float -> string) (v : pyval) :
  json_data (float_round_trips float_of_string float_repr) v ->
  exists c t, json_dumps float_repr v = String c t /\ value_head c = true.
Proof.
  intros H. inversion H as [|b|z|f Hf|s|l Hl|d Hd Hv]; subst; simpl; eauto.
  - destruct b; eauto.
  - destruct (string_of_Z_head z) as (c & t & -> & Hc).
    exists c, t. split; [reflexivity |]. unfold value_head. now rewrite Hc.
  - apply (floatstr_head float_of_string float_repr f Hf).
Qed.

Lemma dict_setitem_fresh {V} (k : string) (v : V) (d : list (string * V)) :
  existsb (String.eqb k) (List.map fst d) = false ->
  dict_setitem String.eqb k v d = d ++ [(k, v)].
Proof.
  induction d as [|[k' v'] r IH]; simpl; [reflexivity |].
  destruct (String.eqb k k'); simpl; [discriminate |].
  intros H. now rewrite IH.
Qed.

Lemma existsb_app_false (k : string) (a b : list string) :
  existsb (String.eqb k) (a ++ b) = false <->
  existsb (String.eqb k) a = false /\ existsb (String.eqb k) b = false.
Proof. rewrite List.existsb_app. apply orb_false_iff. Qed.

(** Setting the items of a dict one by one, keys distinct and not in the
    dict so far, appends them in order. *)
Lemma fold_dict_setitem_distinct {A V} (key : A -> string) (val : A -> V)
    (items : list A) (d : list (string * V)) :
  distinct (List.map key items) = true ->
  (forall x, In x items -> existsb (String.eqb (key x)) (List.map fst d) = false) ->
  fold_left (fun d x => dict_setitem String.eqb (key x) (val x) d) items d
  = d ++ List.map (fun x => (key x, val x)) items.
Proof.
  revert d. induction items as [|x items IH]; intros d Hd Hfresh; simpl.
  - now rewrite app_nil_r.
  - simpl in Hd. apply andb_true_iff in Hd as [Hx Hd].
    rewrite dict_setitem_fresh by (apply Hfresh; now left).
    rewrite IH; [now rewrite <- app_assoc | exact Hd |].
    intros y Hy. rewrite List.map_app. apply existsb_app_false. split.
    + apply Hfresh. now right.
    + simpl. rewrite orb_false_r.
      apply negb_true_iff in Hx.
      destruct (String.eqb_spec (key y) (key x)) as [E|_]; [| reflexivity].
      exfalso.
      assert (T : existsb (String.eqb (key x)) (List.map key items) = true).
      { apply List.existsb_exists. exists (key y). split.
        - apply List.in_map. exact Hy.
        - rewrite E. apply String.eqb_refl. }
      congruence.
Qed.

Lemma dict_of_pairs_distinct (d : list (string * pyval)) :
  distinct (List.map fst d) = true -> dict_of_pairs d = d.
Proof.
  intros H. unfold dict_of_pairs.
  rewrite (fold_dict_setitem_distinct fst snd d [] H) by reflexivity.
  simpl. induction d as [|[k v] r IH]; [reflexivity |].
  simpl in *. apply andb_true_iff in H as [_ H]. now rewrite IH.
Qed.

Lemma concat_two (sep a b : string) (r : list string) :
  String.concat sep (a :: b :: r) = a +:+ sep +:+ String.concat sep (b :: r).
Proof. reflexivity. Qed.

Lemma concat_head float_of_string (float_repr : spec_float -> string)
    (x : pyval) (l : list pyval) :
  json_data (float_round_trips float_of_string float_repr) x ->
  exists c t,
    String.concat ", " (List.map (json_dumps float_repr) (x :: l)) = String c t
    /\ value_head c = true.
Proof.
  intros H. destruct (json_dumps_head float_of_string float_repr x H) as (c & t & Hx & Hc).
  destruct l as [|y r].
  - exists c, t. simpl. auto.
  - exists c, (t +:+ ", " +:+ String.concat ", " (List.map (json_dumps float_repr) (y :: r))).
    split; [| exact Hc].
    change (List.map (json_dumps float_repr) (x :: y :: r))
      with (json_dumps float_repr x :: json_dumps float_repr y
              :: List.map (json_dumps float_repr) r).
    rewrite concat_two, Hx. reflexivity.
Qed.

(** The elements of a non-empty list, up to the closing bracket. *)
Lemma parse_items_dumps float_of_string (float_repr : spec_float -> string)
    (l : list pyval) :
  Forall (round_trips float_of_string float_repr) l ->
  l <> [] ->
  Forall (json_data (float_round_trips float_of_string float_repr)) l ->
  forall (fuel : nat) (rest : string),
    (list_sum (List.map (fun x => S (size x)) l) <= fuel)%nat ->
    parse_items float_of_string fuel
      (String.concat ", " (List.map (json_dumps float_repr) l) +:+ String "]" rest)
    = Some (l, rest).
Proof.
  induction 1 as [|x l Hx Hl IH]; [congruence |].
  intros _ Hok fuel rest Hfuel.
  inversion Hok as [|? ? Hokx Hokl]; subst.
  simpl in Hfuel. destruct fuel as [|fuel]; [lia |].
  rewrite parse_items_eq. destruct l as [|y r].
  - simpl String.concat.
    rewrite (Hx Hokx fuel (String "]" rest)) by (simpl in *; auto; lia).
    reflexivity.
  - change (List.map (json_dumps float_repr) (x :: y :: r))
      with (json_dumps float_repr x :: json_dumps float_repr y
              :: List.map (json_dumps float_repr) r).
    rewrite concat_two, !append_assoc.
    change (", " +:+ ?t) with (String "," (String " " t)).
    rewrite (Hx Hokx fuel) by (simpl in *; auto; lia).
    change (skip_ws (String "," ?t)) with (String "," t).
    cbv iota. rewrite parse_items_ws.
    change (json_dumps float_repr y :: List.map (json_dumps float_repr) r)
      with (List.map (json_dumps float_repr) (y :: r)).
    rewrite IH; [reflexivity | discriminate | exact Hokl |].
    simpl in *. lia.
Qed.

(** The members of a non-empty dict, up to the closing brace. *)
Lemma parse_members_dumps float_of_string (float_repr : spec_float -> string)
    (d : list (string * pyval)) :
  Forall (fun kv => round_trips float_of_string float_repr (snd kv)) d ->
  d <> [] ->
  Forall (fun kv => json_data (float_round_trips float_of_string float_repr) (snd kv)) d ->
  forall (fuel : nat) (rest : string),
    (list_sum (List.map (fun kv => S (size (snd kv))) d) <= fuel)%nat ->
    parse_members float_of_string fuel
      (String.concat ", " (List.map (member_text float_repr) d) +:+ String "}" rest)
    = Some (d, rest).
Proof.
  induction 1 as [|[k v] d Hv Hd IH]; [congruence |].
  intros _ Hok fuel rest Hfuel.
  inversion Hok as [|? ? Hokv Hokd]; subst.
  simpl in Hfuel, Hv, Hokv. destruct fuel as [|fuel]; [lia |].
  destruct d as [|kv r].
  - simpl String.concat. unfold member_text. simpl fst. simpl snd.
    rewrite !append_assoc, quote_append, parse_members_eq, read_string_escape.
    change (": " +:+ ?t) with (String ":" (String " " t)).
    change (skip_ws (String ":" ?t)) with (String ":" t).
    cbv iota. rewrite parse_value_ws.
    rewrite (Hv Hokv fuel (String "}" rest)) by (simpl in *; auto; lia).
    reflexivity.
  - change (List.map (member_text float_repr) ((k, v) :: kv :: r))
      with (member_text float_repr (k, v) :: member_text float_repr kv
              :: List.map (member_text float_repr) r).
    rewrite concat_two. unfold member_text at 1. simpl fst. simpl snd.
    rewrite !append_assoc, quote_append, parse_members_eq, read_string_escape.
    change (": " +:+ ?t) with (String ":" (String " " t)).
    change (skip_ws (String ":" ?t)) with (String ":" t).
    cbv iota. rewrite parse_value_ws.
    change (", " +:+ ?t) with (String "," (String " " t)).
    rewrite (Hv Hokv fuel) by (simpl in *; auto; lia).
    change (skip_ws (String "," ?t)) with (String "," t).
    cbv iota. rewrite parse_members_ws.
    change (member_text float_repr kv :: List.map (member_text float_repr) r)
      with (List.map (member_text float_repr) (kv :: r)).
    rewrite IH; [reflexivity | discriminate | exact Hokd |].
    simpl in *. lia.
Qed.

(** Decoding what was encoded, with enough fuel, gives the value back. *)
Lemma parse_value_dumps float_of_string (float_repr : spec_float -> string) (v : pyval) :
  round_trips float_of_string float_repr v.
Proof.
  induction v using pyval_ind; intros Hok fuel rest Hfuel Hrest.
  - destruct fuel; [simpl in Hfuel; lia | reflexivity].
  - destruct fuel; [simpl in Hfuel; lia |]. destruct b; reflexivity.
  - destruct fuel; [simpl in Hfuel; lia |].
    change (json_dumps float_repr (PInt z)) with (string_of_Z z).
    destruct (string_of_Z_head z) as (c & t & Hz & Hc).
    pose proof (read_number_app float_of_string (string_of_Z z) rest (PInt z) ""
                  Hrest (read_number_string_of_Z float_of_string z)) as Hr.
    rewrite append_nil_l in Hr. rewrite Hz, append_cons in *.
    now rewrite (parse_value_number float_of_string fuel c _ Hc), Hr.
  - destruct fuel; [simpl in Hfuel; lia |].
    inversion Hok as [| | |? Hf| | |]; subst.
    change (json_dumps float_repr (PFloat f)) with (floatstr float_repr f).
    assert (Hfin : float_literal (float_repr f) = true ->
                   float_of_string (float_repr f) = f ->
                   parse_value float_of_string (S fuel) (float_repr f +:+ rest)
                   = Some (PFloat f, rest)).
    { intros Hlit Hback.
      destruct (match_number_head (float_repr f)) as (c & t & Ht & Hc).
      { unfold float_literal in Hlit. now destruct (match_number (float_repr f)). }
      pose proof (read_number_app float_of_string (float_repr f) rest _ ""
                    Hrest (read_number_float_literal float_of_string _ Hlit)) as Hr.
      rewrite append_nil_l, Hback in Hr. rewrite Ht, append_cons in *.
      now rewrite (parse_value_number float_of_string fuel c _ Hc), Hr. }
    destruct f as [s|s| |s m e]; simpl in Hf.
    + destruct Hf. now apply Hfin.
    + apply (parse_value_infinity float_of_string fuel s rest).
    + contradiction.
    + destruct Hf. now apply Hfin.
  - destruct fuel; [simpl in Hfuel; lia |].
    change (json_dumps float_repr (PStr s)) with (quote s).
    now rewrite quote_append, parse_value_string, read_string_escape.
  - destruct fuel; [simpl in Hfuel; lia |].
    destruct l as [|x l]; [reflexivity |].
    inversion Hok as [| | | | |? Hl|]; subst.
    inversion Hl as [|? ? Hokx _]; subst.
    destruct (concat_head float_of_string float_repr x l Hokx) as (c & t & HC & Hc).
    change (json_dumps float_repr (PList (x :: l)))
      with ("[" +:+ String.concat ", " (List.map (json_dumps float_repr) (x :: l)) +:+ "]").
    rewrite !append_assoc.
    change ("[" +:+ ?t) with (String "[" t).
    change ("]" +:+ rest) with (String "]" rest).
    pose proof (parse_items_dumps float_of_string float_repr (x :: l) H
                  ltac:(discriminate) Hl fuel rest ltac:(simpl in *; lia)) as Hi.
    rewrite HC, append_cons in *.
    now rewrite (parse_value_list float_of_string fuel c _ Hc), Hi.
  - inversion Hok.
  - destruct fuel; [simpl in Hfuel; lia |].
    destruct d as [|[k v] d]; [reflexivity |].
    inversion Hok as [| | | | | |? Hdist Hd]; subst.
    change (json_dumps float_repr (PDict ((k, v) :: d)))
      with ("{" +:+ String.concat ", " (List.map (member_text float_repr) ((k, v) :: d))
                +:+ "}").
    rewrite !append_assoc.
    change ("{" +:+ ?t) with (String "{" t).
    change ("}" +:+ rest) with (String "}" rest).
    pose proof (parse_members_dumps float_of_string float_repr ((k, v) :: d) H
                  ltac:(discriminate) Hd fuel rest ltac:(simpl in *; lia)) as Hm.
    assert (HC : exists t,
               String.concat ", " (List.map (member_text float_repr) ((k, v) :: d))
               +:+ String "}" rest = String dquote t).
    { destruct d as [|kv r].
      - simpl String.concat. unfold member_text. simpl fst.
        rewrite !append_assoc, quote_append. eauto.
      - change (List.map (member_text float_repr) ((k, v) :: kv :: r))
          with (member_text float_repr (k, v) :: member_text float_repr kv
                  :: List.map (member_text float_repr) r).
        rewrite concat_two. unfold member_text at 1. simpl fst.
        rewrite !append_assoc, quote_append. eauto. }
    destruct HC as (t & HC). rewrite HC in *.
    rewrite parse_value_dict, Hm.
    now rewrite (dict_of_pairs_distinct ((k, v) :: d) Hdist).
Qed.

(** The fuel that [json_loads] takes from the length of the text is
    enough for an encoded value. *)
Lemma concat_length_bound {A} (text : A -> string) (weight : A -> nat) (l : list A) :
  Forall (fun x => (weight x <= 2 * String.length (text x))%nat) l ->
  (list_sum (List.map (fun x => S (weight x)) l)
   <= 2 * String.length (String.concat ", " (List.map text l)) + 2)%nat.
Proof.
  induction 1 as [|x l Hx Hl IH]; [simpl; lia |].
  destruct l as [|y r].
  - simpl in *. lia.
  - change (List.map text (x :: y :: r)) with (text x :: text y :: List.map text r).
    rewrite concat_two, !append_length.
    change (List.map text (y :: r)) with (text y :: List.map text r) in IH.
    simpl in *. lia.
Qed.

Lemma size_bound float_of_string (float_repr : spec_float -> string) (v : pyval) :
  json_data (float_round_trips float_of_string float_repr) v ->
  (size v <= 2 * String.length (json_dumps float_repr v))%nat.
Proof.
  induction v using pyval_ind; intros Hok.
  - simpl. lia.
  - destruct b; simpl; lia.
  - destruct (string_of_Z_head z) as (c & t & Hz & _).
    change (json_dumps float_repr (PInt z)) with (string_of_Z z). rewrite Hz. simpl. lia.
  - destruct (json_dumps_head float_of_string float_repr (PFloat f) Hok)
      as (c & t & -> & _). simpl. lia.
  - change (json_dumps float_repr (PStr s)) with (quote s). unfold quote. simpl. lia.
  - inversion Hok as [| | | | |? Hl|]; subst.
    change (json_dumps float_repr (PList l))
      with ("[" +:+ String.concat ", " (List.map (json_dumps float_repr) l) +:+ "]").
    rewrite !append_length.
    assert (Hb : Forall (fun x => (size x <= 2 * String.length (json_dumps float_repr x))%nat) l).
    { rewrite List.Forall_forall in *. intros x Hx. apply H; [exact Hx |]. now apply Hl. }
    pose proof (concat_length_bound (json_dumps float_repr) size l Hb).
    simpl in *. lia.
  - inversion Hok.
  - inversion Hok as [| | | | | |? _ Hd]; subst.
    change (json_dumps float_repr (PDict d))
      with ("{" +:+ String.concat ", " (List.map (member_text float_repr) d) +:+ "}").
    rewrite !append_length.
    assert (Hb : Forall (fun kv => (size (snd kv)
                                    <= 2 * String.length (member_text float_repr kv))%nat) d).
    { rewrite List.Forall_forall in *. intros kv Hkv.
      assert (size (snd kv) <= 2 * String.length (json_dumps float_repr (snd kv)))%nat.
      { apply H; [exact Hkv |]. now apply Hd. }
      unfold member_text. rewrite !append_length. lia. }
    pose proof (concat_length_bound (member_text float_repr) (fun kv => size (snd kv)) d Hb).
    simpl in *. lia.
Qed.

(** [json.loads(json.dumps(v)) == v], for JSON data whose floats
    round-trip. *)
Lemma json_loads_dumps float_of_string (float_repr : spec_float -> string) (v : pyval) :
  json_data (float_round_trips float_of_string float_repr) v ->
  json_loads float_of_string (json_dumps float_repr v) = Some v.
Proof.
  intros Hok. unfold json_loads.
  pose proof (size_bound float_of_string float_repr v Hok) as Hs.
  pose proof (parse_value_dumps float_of_string float_repr v Hok
                (2 * String.length (json_dumps float_repr v) + 2)%nat "" ltac:(lia) eq_refl)
    as Hp.
  rewrite append_nil_r in Hp. now rewrite Hp.
Qed.

(** ** VectaraIndexer: [_normalize] *)

Lemma fold_left_pointwise {A B} (f g : A -> B -> A) (l : list B) (a : A) :
  (forall a b, f a b = g a b) -> fold_left f l a = fold_left g l a.
Proof.
  intros E. revert a. induction l as [|b l IH]; intros a; simpl; [reflexivity |].
  now rewrite E, IH.
Qed.

(** On a dict - keys distinct - the loop of [_normalize] maps each value
    in place. *)
Lemma _normalize_map (float_repr : spec_float -> string)
    (metadata : list (string * pyval)) :
  distinct (List.map fst metadata) = true ->
  _normalize float_repr metadata
  = List.map (fun kv => (fst kv, normalize_value float_repr (snd kv))) metadata.
Proof.
  intros H. unfold _normalize.
  rewrite <- (app_nil_l (List.map _ metadata)).
  rewrite <- (fold_dict_setitem_distinct fst
                (fun kv => normalize_value float_repr (snd kv)) metadata [] H)
    by reflexivity.
  apply fold_left_pointwise. intros result kv. unfold normalize_value.
  now destruct (is_primitive (snd kv)).
Qed.

Lemma normalize_value_idem (float_repr : spec_float -> string) (v : pyval) :
  normalize_value float_repr (normalize_value float_repr v)
  = normalize_value float_repr v.
Proof. unfold normalize_value. destruct (is_primitive v) eqn:H; [now rewrite H | reflexivity]. Qed.

(** C6 (amended). On a dict whose values are all str, int, float or bool,
    [_normalize] returns the dict as it was.  In general it keeps the
    keys and their order, keeps each primitive value and puts the JSON
    encoding, a str, in place of each other value - so normalizing twice
    is normalizing once.  Decoding that encoding gives a value equal to
    the original when the value is JSON data: [None], or a list or a dict
    with str keys, made of [None], bools, ints, strs, floats other than
    NaN, and such lists and dicts.  A tuple of JSON data comes back as
    the list of its elements. *)
Theorem normalize_keeps_primitives_and_round_trips
    (float_of_string : string -> spec_float) (float_repr : spec_float -> string)
    (metadata : list (string * pyval)) :
  distinct (List.map fst metadata) = true ->
  (Forall (fun kv => is_primitive (snd kv) = true) metadata ->
   _normalize float_repr metadata = metadata)
  /\ _normalize float_repr metadata
     = List.map (fun kv => (fst kv,
                            if is_primitive (snd kv) then snd kv
                            else PStr (json_dumps float_repr (snd kv)))) metadata
  /\ _normalize float_repr (_normalize float_repr metadata)
     = _normalize float_repr metadata
  /\ (forall key value,
        In (key, value) metadata ->
        is_primitive value = false ->
        In (key, PStr (json_dumps float_repr value)) (_normalize float_repr metadata)
        /\ (json_data (float_round_trips float_of_string float_repr) value ->
            json_loads float_of_string (json_dumps float_repr value) = Some value)
        /\ (forall elements,
              value = PTuple elements ->
              Forall (json_data (float_round_trips float_of_string float_repr))
                elements ->
              json_loads float_of_string (json_dumps float_repr value)
              = Some (PList elements))).
Proof.
  intros Hd. pose proof (_normalize_map float_repr metadata Hd) as Hmap.
  split; [| split; [exact Hmap | split]].
  - intros Hp. rewrite Hmap. clear Hmap Hd.
    induction Hp as [|[k v] l Hv _ IH]; [reflexivity |].
    simpl in *. unfold normalize_value at 1. now rewrite Hv, IH.
  - rewrite _normalize_map; rewrite Hmap.
    + rewrite List.map_map. apply List.map_ext. intros [k v]. simpl.
      now rewrite normalize_value_idem.
    + rewrite List.map_map. simpl.
      now rewrite (List.map_ext _ fst (fun kv => eq_refl)).
  - intros key value Hin Hnp. split; [| split].
    + rewrite Hmap. apply List.in_map_iff. exists (key, value). simpl.
      unfold normalize_value. now rewrite Hnp.
    + apply json_loads_dumps.
    + intros elements -> Hel.
      change (json_dumps float_repr (PTuple elements))
        with (json_dumps float_repr (PList elements)).
      apply json_loads_dumps. now constructor.
Qed.

Lemma normalize_keeps_primitives_and_round_trips_witness :
  _normalize demo_float_repr primitive_metadata = primitive_metadata
  /\ (In ("address",
          PStr (json_dumps demo_float_repr
                  (PDict [("city", PStr "Oslo"); ("zip", PInt 150);
                          ("lat", PFloat (S754_finite false 1 (-1)))])))
         (_normalize demo_float_repr mixed_metadata)
      /\ json_loads demo_float_of_string
           (json_dumps demo_float_repr
              (PDict [("city", PStr "Oslo"); ("zip", PInt 150);
                      ("lat", PFloat (S754_finite false 1 (-1)))]))
         = Some (PDict [("city", PStr "Oslo"); ("zip", PInt 150);
                        ("lat", PFloat (S754_finite false 1 (-1)))]))
  /\ json_loads demo_float_of_string
       (json_dumps demo_float_repr (PTuple [PInt 1; PInt 2]))
     = Some (PList [PInt 1; PInt 2]).
Proof.
  split; [| split].
  - destruct (normalize_keeps_primitives_and_round_trips demo_float_of_string
                demo_float_repr primitive_metadata eq_refl) as (H & _).
    apply H. repeat constructor.
  - destruct (normalize_keeps_primitives_and_round_trips demo_float_of_string
                demo_float_repr mixed_metadata eq_refl) as (_ & _ & _ & H).
    destruct (H "address" (PDict [("city", PStr "Oslo"); ("zip", PInt 150);
                                  ("lat", PFloat (S754_finite false 1 (-1)))]))
      as (H1 & H2 & _).
    + right. right. now left.
    + reflexivity.
    + split; [exact H1 |]. apply H2.
      constructor; [reflexivity |].
      repeat constructor.
  - destruct (normalize_keeps_primitives_and_round_trips demo_float_of_string
                demo_float_repr tuple_metadata eq_refl) as (_ & _ & _ & H).
    destruct (H "pair" (PTuple [PInt 1; PInt 2])) as (_ & _ & H3).
    + right. now left.
    + reflexivity.
    + apply (H3 [PInt 1; PInt 2] eq_refl). repeat constructor.
Defined.

(** C6, as the claim words it, fails on a value that is not JSON data: a
    tuple is encoded as a list, so what is decoded is a list, which is not
    equal to the tuple. *)
Lemma normalize_tuple_comes_back_as_list :
  In ("pair", PStr "[1, 2]") (_normalize demo_float_repr tuple_metadata)
  /\ ~ (json_loads demo_float_of_string "[1, 2]" = Some (PTuple [PInt 1; PInt 2])).
Proof.
  split; [right; now left |]. vm_compute. discriminate.
Qed.

(* ===================================================================== *)
(** * Further properties of the two classes *)

(** ** VectaraIndexer: the token and the object *)

Lemma same_binding_refl (i : VectaraIndexer) : same_binding i i.
Proof. repeat split. Qed.

Lemma same_binding_trans (i j k : VectaraIndexer) :
  same_binding i j -> same_binding j k -> same_binding i k.
Proof.
  unfold same_binding. intros (A1 & A2 & A3 & A4 & A5) (B1 & B2 & B3 & B4 & B5).
  repeat split; congruence.
Qed.

(** [_get_jwt_token], by the answer of the token endpoint. *)
Lemma _get_jwt_token_cases {R} (E : environment R) (w : world R) :
  match token_endpoint E (customer_id (self w)) (client_id (self w))
          (client_secret (self w)) (remote w) with
  | (Ok (token, expires_in), rem) =>
      _get_jwt_token E w
      = (Ok token,
         World (mkIndexer (customer_id (self w)) (corpus_name (self w))
                  (client_id (self w)) (client_secret (self w)) (corpus_id (self w))
                  (Some token) (Some (clock E (ticks w) + expires_in)))
               rem (S (ticks w))
               (log w ++ [TokenRequest (customer_id (self w)) (client_id (self w))
                            (client_secret (self w))]))
  | (Raise e, rem) =>
      _get_jwt_token E w
      = (Raise e,
         World (self w) rem (S (ticks w))
               (log w ++ [TokenRequest (customer_id (self w)) (client_id (self w))
                            (client_secret (self w))]))
  end.
Proof.
  destruct w as [i rem t l]. unfold _get_jwt_token, post_token, mbind, M_bind, now. simpl.
  destruct (token_endpoint E (customer_id i) (client_id i) (client_secret i) rem)
    as [[[token expires_in]|e] rem']; reflexivity.
Qed.

Lemma _get_jwt_token_self {R} (E : environment R) (w w1 : world R) r :
  _get_jwt_token E w = (r, w1) ->
  same_binding (self w) (self w1)
  /\ api_requests (log w1) = api_requests (log w)
  /\ match r with
     | Ok token => jwt_token (self w1) = Some token
                   /\ is_Some (jwt_token_expires_ts (self w1))
     | Raise _ => self w1 = self w
     end.
Proof.
  pose proof (_get_jwt_token_cases E w) as H.
  destruct (token_endpoint E _ _ _ (remote w)) as [[[token expires_in]|e] rem'];
    rewrite H; intros [= <- <-]; simpl; rewrite api_requests_app, app_nil_r;
    repeat split; eauto.
Qed.

(** A request keeps the configuration and the corpus binding; when it
    returns, the object holds a token, and the last thing sent is the API
    request, with that token and the configured customer id. *)
Lemma _request_self {R} (E : environment R) endpoint data (w w' : world R) r :
  _request E endpoint data w = (r, w') ->
  same_binding (self w) (self w')
  /\ (forall response, r = Ok response ->
        exists token l,
          jwt_token (self w') = Some token
          /\ is_Some (jwt_token_expires_ts (self w'))
          /\ log w' = l ++ [ApiRequest endpoint token (customer_id (self w)) data]).
Proof.
  unfold _request. unfold mbind at 1, M_bind at 1, now at 1.
  set (w0 := World (self w) (remote w) (S (ticks w)) (log w)).
  unfold mbind at 1, M_bind at 1, getattr at 1.
  change (self w0) with (self w).
  destruct (jwt_token_expires_ts (self w)) as [expires_ts|] eqn:Hexp.
  2:{ intros [= <- <-]. split; [apply same_binding_refl | discriminate]. }
  unfold mbind at 1, M_bind at 1.
  assert (Hmid : exists w1,
             (if expires_ts - clock E (ticks w) <=? 60
              then _get_jwt_token E ≫= (fun _ => mret tt) else mret tt) w0
             = (fst ((if expires_ts - clock E (ticks w) <=? 60
                      then _get_jwt_token E ≫= (fun _ => mret tt) else mret tt) w0), w1)
             /\ same_binding (self w) (self w1)
             /\ (forall u, fst ((if expires_ts - clock E (ticks w) <=? 60
                                 then _get_jwt_token E ≫= (fun _ => mret tt)
                                 else mret tt) w0) = Ok u ->
                   is_Some (jwt_token_expires_ts (self w1)))).
  { destruct (expires_ts - clock E (ticks w) <=? 60).
    - unfold mbind, M_bind.
      destruct (_get_jwt_token E w0) as [[token|e] w1] eqn:Hj;
        apply _get_jwt_token_self in Hj as (Hs & _ & Hr); exists w1; simpl;
        repeat split; try apply Hs.
      + intros _ _. apply Hr.
      + discriminate.
    - exists w0. simpl. repeat split. intros _ _. rewrite Hexp. eauto. }
  destruct Hmid as (w1 & Hm & Hs1 & Hexp1). rewrite Hm.
  destruct (fst _) as [[]|e] eqn:Hf.
  2:{ intros [= <- <-]. split; [exact Hs1 | discriminate]. }
  specialize (Hexp1 tt eq_refl).
  unfold mbind at 1, M_bind at 1, getattr at 1.
  destruct (jwt_token (self w1)) as [token|] eqn:Htok.
  2:{ intros [= <- <-]. split; [exact Hs1 | discriminate]. }
  unfold post_api.
  destruct (api E endpoint token (customer_id (self w1)) data (remote w1)) as [r' rem'].
  intros [= <- <-]. simpl. split; [exact Hs1 |].
  intros response _. exists token, (log w1). repeat split; auto.
  destruct Hs1 as (-> & _). reflexivity.
Qed.

(** X1. [check] never raises: it returns [None] or an error string.  When
    it returns [None] the object holds a corpus id and a token with its
    expiry; when it returns an error string the corpus id is the one held
    before the call.  The configuration is never changed. *)
Theorem check_returns_and_binds {R} (E : environment R) (w : world R) :
  exists r w',
    check E w = (Ok r, w')
    /\ customer_id (self w') = customer_id (self w)
    /\ corpus_name (self w') = corpus_name (self w)
    /\ match r with
       | None => is_Some (corpus_id (self w'))
                 /\ is_Some (jwt_token (self w'))
                 /\ is_Some (jwt_token_expires_ts (self w'))
       | Some _ => corpus_id (self w') = corpus_id (self w)
       end.
Proof.
  assert (Hkeep : forall i j : VectaraIndexer,
             same_binding i j ->
             customer_id j = customer_id i /\ corpus_name j = corpus_name i
             /\ corpus_id j = corpus_id i).
  { intros i j (A1 & A2 & _ & _ & A5). auto. }
  unfold check, try_except. unfold mbind at 1, M_bind at 1.
  destruct (_get_jwt_token E w) as [[jwt|e] w1] eqn:Hj;
    apply _get_jwt_token_self in Hj as (Hs1 & _ & Hr1).
  2:{ eexists _, _. split; [reflexivity |]. simpl. apply Hkeep, Hs1. }
  destruct (String.eqb jwt "").
  { eexists _, _. split; [reflexivity |]. simpl. apply Hkeep, Hs1. }
  unfold mbind at 1, M_bind at 1, get_state at 1. cbv beta iota zeta.
  unfold mbind at 1, M_bind at 1.
  destruct (_request E "list-corpora" _ w1) as [[response|e] w2] eqn:Hl;
    apply _request_self in Hl as (Hs2 & Hr2);
    pose proof (same_binding_trans _ _ _ Hs1 Hs2) as Hs12.
  2:{ eexists _, _. split; [reflexivity |]. simpl. apply Hkeep, Hs12. }
  destruct response as [cs| | |];
    try (eexists _, _; split; [reflexivity |]; simpl; apply Hkeep, Hs12).
  destruct (1 <? length _)%nat eqn:Hlen.
  { eexists _, _. split; [reflexivity |]. simpl. apply Hkeep, Hs12. }
  destruct (Hr2 _ eq_refl) as (token & l & Htok & Hexp & _).
  destruct (possible_corpora_ids_names_map (corpus_name (self w1)) cs)
    as [|[id n] [|[id' n'] rest]]; try discriminate.
  - unfold mbind at 1, M_bind at 1.
    destruct (_request E "create-corpus" _ w2) as [[response|e] w3] eqn:Hc;
      apply _request_self in Hc as (Hs3 & Hr3);
      pose proof (same_binding_trans _ _ _ Hs12 Hs3) as Hs13.
    2:{ eexists _, _. split; [reflexivity |]. simpl. apply Hkeep, Hs13. }
    destruct (Hr3 _ eq_refl) as (token3 & l3 & Htok3 & Hexp3 & _).
    destruct response as [| cid | |];
      try (eexists _, _; split; [reflexivity |]; simpl; apply Hkeep, Hs13).
    eexists _, _. split; [reflexivity |]. simpl.
    destruct (Hkeep _ _ Hs13) as (-> & -> & _). rewrite Htok3. eauto.
  - eexists _, _. split; [reflexivity |]. simpl.
    destruct (Hkeep _ _ Hs12) as (-> & -> & _). rewrite Htok. eauto.
Qed.

(** X2. When the token endpoint fails, [check] returns the formatted
    exception; when it grants an empty token, [check] returns the "Unable
    to get JWT Token" message.  Either way no API request has been sent
    and the corpus id is untouched. *)
Theorem check_reports_token_failure {R} (E : environment R) (w : world R) :
  (forall e rem,
      token_endpoint E (customer_id (self w)) (client_id (self w))
        (client_secret (self w)) (remote w) = (Raise e, rem) ->
      check E w
      = (Ok (Some (format_exception E e)),
         World (self w) rem (S (ticks w))
               (log w ++ [TokenRequest (customer_id (self w)) (client_id (self w))
                            (client_secret (self w))])))
  /\ (forall expires_in rem,
        token_endpoint E (customer_id (self w)) (client_id (self w))
          (client_secret (self w)) (remote w) = (Ok ("", expires_in), rem) ->
        exists w',
          check E w
          = (Ok (Some "Unable to get JWT Token. Confirm your Client ID and Client Secret."),
             w')
          /\ api_requests (log w') = api_requests (log w)
          /\ corpus_id (self w') = corpus_id (self w)).
Proof.
  pose proof (_get_jwt_token_cases E w) as H.
  split.
  - intros e rem Ht. rewrite Ht in H.
    unfold check, try_except. unfold mbind at 1, M_bind at 1. now rewrite H.
  - intros expires_in rem Ht. rewrite Ht in H.
    unfold check, try_except. unfold mbind at 1, M_bind at 1. rewrite H.
    eexists. split; [reflexivity |]. simpl.
    now rewrite api_requests_app, app_nil_r.
Qed.

Lemma check_reports_token_failure_witness :
  check (demo_env_token (Raise (KeyError "access_token"))) (demo_world [])
  = (Ok (Some "error"),
     World demo_indexer [] 1 [TokenRequest "cust" "id" "secret"])
  /\ (exists w',
         check (demo_env_token (Ok ("", 1800))) (demo_world [])
         = (Ok (Some "Unable to get JWT Token. Confirm your Client ID and Client Secret."),
            w')
         /\ api_requests (log w') = []).
Proof.
  split.
  - destruct (check_reports_token_failure
                (demo_env_token (Raise (KeyError "access_token"))) (demo_world []))
      as [H _].
    apply (H (KeyError "access_token") [] eq_refl).
  - destruct (check_reports_token_failure (demo_env_token (Ok ("", 1800))) (demo_world []))
      as [_ H].
    destruct (H 1800 [] eq_refl) as (w' & H1 & H2 & _). eauto.
Defined.

(** X3. A token fetch that succeeds caches the token, with the expiry
    [request time + expires_in], the time being read before the call; one
    that fails leaves the object - the token cached before, if any - as it
    was.  Either way it sends one token request and no API request. *)
Theorem _get_jwt_token_caches {R} (E : environment R) (w w1 : world R) r :
  _get_jwt_token E w = (r, w1) ->
  log w1 = log w ++ [TokenRequest (customer_id (self w)) (client_id (self w))
                       (client_secret (self w))]
  /\ match r with
     | Ok token =>
         exists expires_in,
           fst (token_endpoint E (customer_id (self w)) (client_id (self w))
                  (client_secret (self w)) (remote w)) = Ok (token, expires_in)
           /\ jwt_token (self w1) = Some token
           /\ jwt_token_expires_ts (self w1) = Some (clock E (ticks w) + expires_in)
           /\ same_binding (self w) (self w1)
     | Raise e => self w1 = self w
     end.
Proof.
  pose proof (_get_jwt_token_cases E w) as H.
  destruct (token_endpoint E _ _ _ (remote w)) as [[[token expires_in]|e] rem'];
    rewrite H; intros [= <- <-]; simpl; split; try reflexivity.
  exists expires_in. repeat split.
Qed.

Lemma _get_jwt_token_caches_witness :
  jwt_token (self (snd (_get_jwt_token demo_env (demo_world [])))) = Some "jwt"
  /\ jwt_token_expires_ts (self (snd (_get_jwt_token demo_env (demo_world []))))
     = Some (1000 + 1800)
  /\ self (snd (_get_jwt_token (demo_env_token (Raise (KeyError "access_token")))
                  (demo_world_with_token 2000)))
     = self (demo_world_with_token 2000).
Proof.
  destruct (_get_jwt_token_caches demo_env (demo_world [])
              (snd (_get_jwt_token demo_env (demo_world []))) (Ok "jwt") eq_refl)
    as (_ & expires_in & He & Ht & Hx & _).
  assert (expires_in = 1800) by (simpl in He; congruence). subst expires_in.
  split; [exact Ht | split; [exact Hx |]].
  apply (_get_jwt_token_caches (demo_env_token (Raise (KeyError "access_token")))
           (demo_world_with_token 2000) _ (Raise (KeyError "access_token")) eq_refl).
Defined.

(** X4. A request made before any token was fetched raises
    [AttributeError]: nothing is sent, neither a token request nor the API
    request. *)
Theorem _request_needs_a_token {R} (E : environment R) (w : world R)
    (endpoint : string) (data : request_data) :
  jwt_token_expires_ts (self w) = None ->
  _request E endpoint data w
  = (Raise (AttributeError "jwt_token_expires_ts"),
     World (self w) (remote w) (S (ticks w)) (log w)).
Proof.
  intros H. unfold _request, mbind, M_bind, now, getattr. simpl. now rewrite H.
Qed.

Lemma _request_needs_a_token_witness :
  _request demo_env "query" (QueryData 100 "cust" 1 "doc._ab_stream = 'users'")
    (demo_world [])
  = (Raise (AttributeError "jwt_token_expires_ts"), World demo_indexer [] 1 []).
Proof.
  apply (_request_needs_a_token demo_env (demo_world [])). reflexivity.
Defined.

(** X5. When a request returns, the last thing sent is the API request
    itself, for the given endpoint and body, carrying the configured
    customer id and the token the object holds afterwards; the
    configuration and the corpus binding are unchanged. *)
Theorem _request_sends_cached_token {R} (E : environment R) (w w' : world R)
    (endpoint : string) (data : request_data) (response : response_json) :
  _request E endpoint data w = (Ok response, w') ->
  same_binding (self w) (self w')
  /\ exists token l,
       jwt_token (self w') = Some token
       /\ log w' = l ++ [ApiRequest endpoint token (customer_id (self w)) data].
Proof.
  intros H. apply _request_self in H as (Hs & Hr).
  split; [exact Hs |].
  destruct (Hr response eq_refl) as (token & l & Ht & _ & Hl). eauto.
Qed.

Lemma _request_sends_cached_token_witness :
  exists token l,
    jwt_token (self (snd (_request demo_env "list-corpora" (ListCorporaData 100 "docs")
                            (demo_world_with_token 1030)))) = Some token
    /\ log (snd (_request demo_env "list-corpora" (ListCorporaData 100 "docs")
                   (demo_world_with_token 1030)))
       = l ++ [ApiRequest "list-corpora" token "cust" (ListCorporaData 100 "docs")].
Proof.
  apply (_request_sends_cached_token demo_env (demo_world_with_token 1030) _
           "list-corpora" (ListCorporaData 100 "docs") (ListCorporaResponse [])).
  reflexivity.
Defined.

(** ** VectaraIndexer: deleting and indexing *)

(** X6. [delete] with at least one id, and [pre_sync] on a catalog with a
    stream in overwrite mode, raise [TypeError] before anything is sent:
    they call [_delete_doc_by_metadata] with the keywords [field_name] and
    [field_values], which are not names of its parameters.  The log, the
    remote state and the object are what they were. *)
Theorem delete_and_pre_sync_raise_before_sending {R} (E : environment R) (w : world R) :
  exists message,
    (forall id ids, delete E (id :: ids) w = (Raise (TypeError message), w))
    /\ (forall catalog s,
          In s catalog ->
          destination_sync_mode s = overwrite ->
          pre_sync E catalog w = (Raise (TypeError message), w)).
Proof.
  eexists. split; [reflexivity |].
  intros catalog s Hin Hmode. unfold pre_sync.
  assert (Hne : exists x r, streams_to_overwrite catalog = x :: r).
  { unfold streams_to_overwrite.
    induction catalog as [|c catalog IH]; [contradiction |].
    simpl. destruct Hin as [->|Hin].
    - rewrite Hmode. simpl. eauto.
    - destruct (is_overwrite (destination_sync_mode c)); simpl; eauto. }
  destruct Hne as (x & r & ->). reflexivity.
Qed.

Lemma delete_and_pre_sync_raise_before_sending_witness :
  exists message,
    delete demo_env ["rec-1"; "rec-2"] (demo_world_with_token 2000)
    = (Raise (TypeError message), demo_world_with_token 2000)
    /\ pre_sync demo_env [ConfiguredStream "users" append;
                          ConfiguredStream "orders" overwrite] (demo_world_with_token 2000)
       = (Raise (TypeError message), demo_world_with_token 2000).
Proof.
  destruct (delete_and_pre_sync_raise_before_sending demo_env (demo_world_with_token 2000))
    as (message & H1 & H2).
  exists message. split; [apply H1 |].
  apply (H2 _ (ConfiguredStream "orders" overwrite)); [right; now left | reflexivity].
Defined.

(** X7. [_delete_doc_by_metadata] on an object that holds no corpus id -
    [check] has not bound one - raises [AttributeError] before anything is
    sent. *)
Theorem _delete_doc_by_metadata_needs_corpus {R} (E : environment R) (w : world R)
    (metadata_field metadata_field_value : py_arg) :
  corpus_id (self w) = None ->
  _delete_doc_by_metadata E metadata_field metadata_field_value w
  = (Raise (AttributeError "corpus_id"), w).
Proof.
  intros H. unfold _delete_doc_by_metadata, mbind, M_bind, get_state, getattr.
  now rewrite H.
Qed.

Lemma _delete_doc_by_metadata_needs_corpus_witness :
  _delete_doc_by_metadata docs_env (PyStr "_ab_stream") (PyStr "users") (demo_world [])
  = (Raise (AttributeError "corpus_id"), demo_world []).
Proof.
  apply (_delete_doc_by_metadata_needs_corpus docs_env (demo_world [])). reflexivity.
Defined.

Lemma delete_documents_spec {R} (E : environment R) (document_ids : list string) :
  forall (acc : list string) (w w' : world R) (l : list string),
    delete_documents E document_ids acc w = (Ok l, w') ->
    same_binding (self w) (self w')
    /\ (exists l', l = acc ++ l' /\ sublist l' document_ids)
    /\ (forall corpusId,
          corpus_id (self w) = Some corpusId ->
          api_requests (log w')
          = api_requests (log w)
            ++ List.map (fun id => ("delete-doc",
                                    DeleteDocData (customer_id (self w)) corpusId id))
                 document_ids).
Proof.
  induction document_ids as [|id rest IH]; intros acc w w' l.
  - intros [= <- <-]. split; [apply same_binding_refl | split].
    + exists []. split; [now rewrite app_nil_r | constructor].
    + intros c _. simpl. now rewrite app_nil_r.
  - simpl delete_documents.
    unfold mbind at 1, M_bind at 1, get_state at 1. cbv beta iota.
    unfold mbind at 1, M_bind at 1, getattr at 1.
    destruct (corpus_id (self w)) as [c|] eqn:Hc; [| discriminate].
    unfold mbind at 1, M_bind at 1.
    destruct (_request E "delete-doc" _ w) as [[response|e] w1] eqn:Hr; [| discriminate].
    pose proof (_request_api_requests _ _ _ _ _ _ Hr) as [Hq|[_ [e He]]]; [| discriminate].
    apply _request_self in Hr as (Hs & _).
    assert (Hrec : forall acc',
               delete_documents E rest acc' w1 = (Ok l, w') ->
               same_binding (self w) (self w')
               /\ (exists l', l = acc' ++ l' /\ sublist l' rest)
               /\ (forall corpusId,
                     Some c = Some corpusId ->
                     api_requests (log w')
                     = api_requests (log w)
                       ++ List.map (fun id => ("delete-doc",
                                               DeleteDocData (customer_id (self w))
                                                 corpusId id)) (id :: rest))).
    { intros acc' H. apply IH in H as (Hs' & Hl & Hlog).
      split; [eapply same_binding_trans; eauto | split; [exact Hl |]].
      intros corpusId [= <-]. destruct Hs as (Hcust & _ & _ & _ & Hcid).
      rewrite (Hlog c) by congruence. rewrite Hq, Hcust, <- app_assoc. reflexivity. }
    destruct response as [| | |[|]]; intros H; apply Hrec in H as (H1 & (l' & -> & Hsub) & H3);
      (split; [exact H1 | split; [| exact H3]]).
    all: try (exists l'; split; [reflexivity | now constructor]).
    exists (id :: l'). split; [now rewrite <- app_assoc | now constructor].
Qed.

(** X8. When [_delete_doc_by_metadata] returns, it has sent the query -
    100 results, the metadata filter, the bound corpus - and then, for the
    documents that the query's answer lists, one [delete-doc] request
    each, in the order of the answer and for the bound corpus; nothing
    else went to the API.  The list it returns is made of documents of the
    answer, in their order. *)
Theorem _delete_doc_by_metadata_requests {R} (E : environment R) (w w' : world R)
    (metadata_field metadata_field_value : py_arg) (documents_not_deleted : list string) :
  _delete_doc_by_metadata E metadata_field metadata_field_value w
  = (Ok documents_not_deleted, w') ->
  exists corpusId document_ids w1,
    corpus_id (self w) = Some corpusId
    /\ _request E "query"
         (QueryData 100 (customer_id (self w)) corpusId
            ("doc." +:+ py_str E metadata_field +:+ " = '"
               +:+ py_str E metadata_field_value +:+ "'")) w
       = (Ok (QueryResponse document_ids), w1)
    /\ api_requests (log w1)
       = api_requests (log w)
         ++ [("query",
              QueryData 100 (customer_id (self w)) corpusId
                ("doc." +:+ py_str E metadata_field +:+ " = '"
                   +:+ py_str E metadata_field_value +:+ "'"))]
    /\ api_requests (log w')
       = api_requests (log w1)
         ++ List.map (fun id => ("delete-doc",
                                 DeleteDocData (customer_id (self w)) corpusId id))
              document_ids
    /\ sublist documents_not_deleted document_ids.
Proof.
  unfold _delete_doc_by_metadata.
  unfold mbind at 1, M_bind at 1, get_state at 1. cbv beta iota.
  unfold mbind at 1, M_bind at 1, getattr at 1.
  destruct (corpus_id (self w)) as [c|] eqn:Hc; [| discriminate].
  unfold mbind at 1, M_bind at 1.
  destruct (_request E "query" _ w) as [[response|e] w1] eqn:Hr; [| discriminate].
  pose proof (_request_api_requests _ _ _ _ _ _ Hr) as [Hq|[_ [e He]]]; [| discriminate].
  pose proof (_request_self _ _ _ _ _ _ Hr) as ((Hcust & _ & _ & _ & Hcid) & _).
  destruct response as [| |document_ids|]; try discriminate.
  intros H. apply delete_documents_spec in H as (_ & (l' & -> & Hsub) & Hlog).
  exists c, document_ids, w1.
  split; [reflexivity | split; [exact Hr | split; [exact Hq | split; [| exact Hsub]]]].
  rewrite (Hlog c) by congruence. now rewrite Hcust.
Qed.

Lemma _delete_doc_by_metadata_requests_witness :
  api_requests (log (snd (_delete_doc_by_metadata docs_env (PyStr "_ab_stream")
                            (PyStr "users") (demo_world_with_token 2000))))
  = [("query", QueryData 100 "cust" 1 "doc._ab_stream = 'users'");
     ("delete-doc", DeleteDocData "cust" 1 "doc-1");
     ("delete-doc", DeleteDocData "cust" 1 "doc-2")]
  /\ sublist ["doc-2"] ["doc-1"; "doc-2"].
Proof.
  destruct (_delete_doc_by_metadata_requests docs_env (demo_world_with_token 2000)
              (snd (_delete_doc_by_metadata docs_env (PyStr "_ab_stream") (PyStr "users")
                      (demo_world_with_token 2000)))
              (PyStr "_ab_stream") (PyStr "users") ["doc-2"] eq_refl)
    as (c & ids & w1 & Hc & Hquery & Hq & Hlog & Hsub).
  assert (c = 1) by (simpl in Hc; congruence). subst c.
  assert (ids = ["doc-1"; "doc-2"]) by (vm_compute in Hquery; congruence). subst ids.
  split; [| exact Hsub].
  rewrite Hlog, Hq. reflexivity.
Defined.

(** X9. [index] never sends anything.  With no chunk it returns; with a
    chunk it raises while building the request body of the first one:
    [AttributeError] when the object holds no corpus id, else [TypeError],
    since the body puts a dict inside a set.  The world is unchanged. *)
Theorem index_never_sends {R} (float_repr : spec_float -> string) (uuid4 : nat -> Z)
    (w : world R) :
  index float_repr uuid4 [] w = (Ok tt, w)
  /\ (forall chunk rest,
        exists e,
          index float_repr uuid4 (chunk :: rest) w = (Raise e, w)
          /\ match corpus_id (self w) with
             | Some _ => exists message, e = TypeError message
             | None => e = AttributeError "corpus_id"
             end).
Proof.
  split; [reflexivity |].
  intros chunk rest. unfold index. simpl index_from.
  unfold _index_document, mbind, M_bind, get_state, getattr, lift_result, set_of_dict.
  destruct (corpus_id (self w)); eexists; split; try reflexivity. eexists; reflexivity.
Qed.

(** ** VectaraIndexer: what [_normalize] returns *)

Lemma dict_setitem_Forall {K V} (eqb : K -> K -> bool) (Q : V -> Prop) (k : K) (v : V)
    (d : list (K * V)) :
  Q v -> Forall (fun kv => Q (snd kv)) d ->
  Forall (fun kv => Q (snd kv)) (dict_setitem eqb k v d).
Proof.
  intros Hv. induction 1 as [|[k' v'] r Hx Hr IH]; simpl.
  - repeat constructor. exact Hv.
  - destruct (eqb k k'); constructor; auto.
Qed.

Lemma fold_dict_setitem_Forall {P K V} (eqb : K -> K -> bool) (Q : V -> Prop)
    (f : P -> K) (g : P -> V) (ps : list P) (d : list (K * V)) :
  (forall p, Q (g p)) -> Forall (fun kv => Q (snd kv)) d ->
  Forall (fun kv => Q (snd kv)) (fold_left (fun d p => dict_setitem eqb (f p) (g p) d) ps d).
Proof.
  intros Hg. revert d. induction ps as [|p ps IH]; intros d Hd; simpl; [exact Hd |].
  apply IH, dict_setitem_Forall; auto.
Qed.

Lemma fold_dict_setitem_NoDup {P K V} (eqb : K -> K -> bool)
    (eqb_eq : forall x y, eqb x y = true <-> x = y)
    (f : P -> K) (g : P -> V) (ps : list P) (d : list (K * V)) :
  List.NoDup (List.map fst d) ->
  List.NoDup (List.map fst (fold_left (fun d p => dict_setitem eqb (f p) (g p) d) ps d)).
Proof.
  revert d. induction ps as [|p ps IH]; intros d Hd; simpl; [exact Hd |].
  apply IH, (dict_setitem_NoDup eqb eqb_eq), Hd.
Qed.

Lemma _normalize_fold (float_repr : spec_float -> string) (metadata : list (string * pyval)) :
  _normalize float_repr metadata
  = fold_left (fun d kv => dict_setitem String.eqb (fst kv)
                             (normalize_value float_repr (snd kv)) d) metadata [].
Proof.
  apply fold_left_pointwise. intros result kv. unfold normalize_value.
  now destruct (is_primitive (snd kv)).
Qed.

(** X10. Whatever the metadata, what [_normalize] returns is flat: every
    value in it is a str, an int, a float or a bool; and it has the keys
    of the metadata, each once. *)
Theorem _normalize_result_is_flat (float_repr : spec_float -> string)
    (metadata : list (string * pyval)) :
  Forall (fun kv => is_primitive (snd kv) = true) (_normalize float_repr metadata)
  /\ List.NoDup (List.map fst (_normalize float_repr metadata))
  /\ (forall key, In key (List.map fst (_normalize float_repr metadata))
                  <-> In key (List.map fst metadata)).
Proof.
  rewrite _normalize_fold. split; [| split].
  - apply (fold_dict_setitem_Forall String.eqb (fun v => is_primitive v = true)).
    + intros [k v]. unfold normalize_value. simpl.
      destruct (is_primitive v) eqn:H; [exact H | reflexivity].
    + constructor.
  - apply (fold_dict_setitem_NoDup String.eqb String.eqb_eq). constructor.
  - intros key.
    rewrite (fold_dict_setitem_keys String.eqb String.eqb_eq fst
               (fun kv => normalize_value float_repr (snd kv))).
    rewrite (List.in_map_iff fst metadata key). simpl. split.
    + intros [[]|(p & Hp & <-)]. exists p. auto.
    + intros (p & <- & Hp). right. exists p. auto.
Qed.

(** ** SQLCache: names *)

Lemma str_map_append (f : ascii -> ascii) (a b : string) :
  str_map f (a +:+ b) = str_map f a +:+ str_map f b.
Proof.
  induction a as [|c a IH]; [reflexivity |].
  rewrite append_cons. simpl. now rewrite append_cons, IH.
Qed.

Lemma str_map_length (f : ascii -> ascii) (s : string) :
  String.length (str_map f s) = String.length s.
Proof. induction s as [|c s IH]; simpl; [reflexivity | now rewrite IH]. Qed.

Lemma append_inj_l (a x y : string) : a +:+ x = a +:+ y -> x = y.
Proof.
  induction a as [|c a IH]; [now rewrite !append_nil_l |].
  rewrite !append_cons. intros [= H]. auto.
Qed.

Lemma append_inj_r (c x y : string) : x +:+ c = y +:+ c -> x = y.
Proof.
  revert y. induction x as [|a x IH]; intros [|b y] H.
  - reflexivity.
  - apply (f_equal String.length) in H. rewrite !append_length in H. simpl in H. lia.
  - apply (f_equal String.length) in H. rewrite !append_length in H. simpl in H. lia.
  - rewrite !append_cons in H. injection H as -> H. f_equal. auto.
Qed.

(** X11. On names made of code points below 256 - the strings of this
    development, where [str.lower()] acts on each character by itself -
    the table of a stream is named by the normalized prefix, the
    normalized stream name and the normalized suffix put together;
    normalizing that name again changes nothing; and two streams get the
    same table exactly when their names normalize to the same string.
    (Beyond code point 255 lowercasing can depend on the neighbours of a
    character, and the first and the last of these fail.) *)
Theorem get_sql_table_name_normalizes_parts (config : SQLCacheConfigBase) :
  (forall stream_name,
      get_sql_table_name config _normalize_table_name stream_name
      = _normalize_table_name (table_prefix config)
          +:+ _normalize_table_name stream_name
          +:+ _normalize_table_name (table_suffix config))
  /\ (forall stream_name,
        _normalize_table_name (get_sql_table_name config _normalize_table_name stream_name)
        = get_sql_table_name config _normalize_table_name stream_name)
  /\ (forall stream_name other_stream,
        get_sql_table_name config _normalize_table_name stream_name
        = get_sql_table_name config _normalize_table_name other_stream
        <-> _normalize_table_name stream_name = _normalize_table_name other_stream).
Proof.
  assert (P : forall stream_name,
             get_sql_table_name config _normalize_table_name stream_name
             = _normalize_table_name (table_prefix config)
                 +:+ _normalize_table_name stream_name
                 +:+ _normalize_table_name (table_suffix config)).
  { intros s. unfold get_sql_table_name.
    now rewrite !_normalize_table_name_map, !str_map_append. }
  split; [exact P | split].
  - intros s. unfold get_sql_table_name.
    rewrite !_normalize_table_name_map, str_map_map.
    apply str_map_ext, normalize_char_idem.
  - intros s t. rewrite !P. split.
    + intros H. apply append_inj_l in H. now apply append_inj_r in H.
    + now intros ->.
Qed.

(** X12. A normalized name holds no space and no hyphen; and for a raw
    name made of code points below 256 - the strings of this development,
    where lowercasing keeps the number of characters - it has the length
    of the raw name. *)
Theorem normalized_name_characters (raw_name : string) :
  Forall (fun c => c <> " "%char /\ c <> "-"%char)
    (list_ascii_of_string (_normalize_column_name raw_name))
  /\ Forall (fun c => c <> " "%char /\ c <> "-"%char)
       (list_ascii_of_string (_normalize_table_name raw_name))
  /\ String.length (_normalize_column_name raw_name) = String.length raw_name
  /\ String.length (_normalize_table_name raw_name) = String.length raw_name.
Proof.
  change (_normalize_column_name raw_name) with (_normalize_table_name raw_name).
  rewrite _normalize_table_name_map.
  assert (C : forall c, normalize_char c <> " "%char /\ normalize_char c <> "-"%char).
  { intros c. destruct c as [[] [] [] [] [] [] [] []]; split; discriminate. }
  assert (F : Forall (fun c => c <> " "%char /\ c <> "-"%char)
                (list_ascii_of_string (str_map normalize_char raw_name))).
  { induction raw_name as [|c s IH]; simpl; constructor; auto. }
  repeat split; auto using str_map_length.
Qed.

(** ** SQLCache: the columns of a stream *)

Lemma kw_lookup_dict_setitem_eq {V} (k : string) (v : V) (d : list (string * V)) :
  kw_lookup k (dict_setitem String.eqb k v d) = Some v.
Proof.
  induction d as [|[k' v'] r IH]; simpl.
  - now rewrite String.eqb_refl.
  - destruct (String.eqb k k') eqn:H; simpl; rewrite H; [reflexivity | exact IH].
Qed.

Lemma kw_lookup_dict_setitem_ne {V} (a k : string) (v : V) (d : list (string * V)) :
  a <> k -> kw_lookup a (dict_setitem String.eqb k v d) = kw_lookup a d.
Proof.
  intros Hne. induction d as [|[k' v'] r IH]; simpl.
  - destruct (String.eqb_spec a k); [contradiction | reflexivity].
  - destruct (String.eqb_spec k k') as [<-|Hk]; simpl.
    + destruct (String.eqb_spec a k); [contradiction | reflexivity].
    + now rewrite IH.
Qed.

Lemma dict_setitem_length {K V} (eqb : K -> K -> bool) (k : K) (v : V) (d : list (K * V)) :
  (length (dict_setitem eqb k v d) <= S (length d))%nat.
Proof.
  induction d as [|[k' v'] r IH]; simpl; [lia |].
  destruct (eqb k k'); simpl; lia.
Qed.

Lemma fold_dict_setitem_length {P K V} (eqb : K -> K -> bool) (f : P -> K) (g : P -> V)
    (ps : list P) (d : list (K * V)) :
  (length (fold_left (fun d p => dict_setitem eqb (f p) (g p) d) ps d)
   <= length d + length ps)%nat.
Proof.
  revert d. induction ps as [|p ps IH]; intros d; simpl; [lia |].
  specialize (IH (dict_setitem eqb (f p) (g p) d)).
  pose proof (dict_setitem_length eqb (f p) (g p) d). lia.
Qed.

Lemma fold_dict_setitem_lookup_ne {P V} (f : P -> string) (g : P -> V) (a : string)
    (ps : list P) (d : list (string * V)) :
  (forall q, In q ps -> f q <> a) ->
  kw_lookup a (fold_left (fun d p => dict_setitem String.eqb (f p) (g p) d) ps d)
  = kw_lookup a d.
Proof.
  revert d. induction ps as [|p ps IH]; intros d H; simpl; [reflexivity |].
  rewrite IH by (intros q Hq; apply H; now right).
  apply kw_lookup_dict_setitem_ne. intros ->. now apply (H p); [left |].
Qed.

(** X13. The columns of a stream.  For a stream the catalog does not know
    [_get_sql_column_definitions] raises [KeyError].  Otherwise the column
    names are distinct, the two metadata columns are there with type
    TIMESTAMP, there are at most two columns more than declared
    properties, and a property has its converted type under its normalized
    name unless a later property or a metadata column takes that name. *)
Theorem _get_sql_column_definitions_spec (self : SQLCacheCore) (stream_name : string) :
  match kw_lookup stream_name (catalog self) with
  | None => _get_sql_column_definitions self stream_name = Raise (KeyError stream_name)
  | Some properties =>
      exists columns,
        _get_sql_column_definitions self stream_name = Ok columns
        /\ List.NoDup (List.map fst columns)
        /\ kw_lookup "_airbyte_extracted_at" columns = Some TIMESTAMP
        /\ kw_lookup "_airbyte_loaded_at" columns = Some TIMESTAMP
        /\ (length columns <= length properties + 2)%nat
        /\ (forall before p after,
              properties = (before ++ p :: after)%list ->
              self__normalize_column_name self (fst p) <> "_airbyte_extracted_at" ->
              self__normalize_column_name self (fst p) <> "_airbyte_loaded_at" ->
              (forall q, In q after ->
                         self__normalize_column_name self (fst q)
                         <> self__normalize_column_name self (fst p)) ->
              kw_lookup (self__normalize_column_name self (fst p)) columns
              = Some (to_sql_type self (snd p)))
  end.
Proof.
  unfold _get_sql_column_definitions, _get_stream_json_schema.
  destruct (kw_lookup stream_name (catalog self)) as [properties|]; [| reflexivity].
  eexists. split; [reflexivity |].
  set (f := fun p : string * string => self__normalize_column_name self (fst p)).
  set (g := fun p : string * string => to_sql_type self (snd p)).
  split; [| split; [| split; [| split]]].
  - apply (dict_setitem_NoDup String.eqb String.eqb_eq).
    apply (dict_setitem_NoDup String.eqb String.eqb_eq).
    apply (fold_dict_setitem_NoDup String.eqb String.eqb_eq f g). constructor.
  - rewrite kw_lookup_dict_setitem_ne by discriminate.
    apply kw_lookup_dict_setitem_eq.
  - apply kw_lookup_dict_setitem_eq.
  - eapply Nat.le_trans; [apply dict_setitem_length |].
    eapply Nat.le_trans; [apply le_n_S, dict_setitem_length |].
    pose proof (fold_dict_setitem_length String.eqb f g properties []) as H0.
    unfold f, g in H0. simpl in H0. lia.
  - intros before p after -> He Hl Hafter.
    rewrite !kw_lookup_dict_setitem_ne by assumption.
    rewrite fold_left_app. simpl.
    rewrite (fold_dict_setitem_lookup_ne f g (f p)) by exact Hafter.
    apply kw_lookup_dict_setitem_eq.
Qed.

Lemma _get_sql_column_definitions_spec_witness :
  exists columns,
    _get_sql_column_definitions (stream_core APPEND) "users" = Ok columns
    /\ kw_lookup "id" columns = Some "BIGINT"
    /\ kw_lookup "full_name" columns = Some "VARCHAR"
    /\ kw_lookup "_airbyte_loaded_at" columns = Some TIMESTAMP.
Proof.
  pose proof (_get_sql_column_definitions_spec (stream_core APPEND) "users") as H.
  simpl in H. destruct H as (columns & Hc & _ & _ & Hl & _ & Hp).
  exists columns. split; [exact Hc | split; [| split; [| exact Hl]]].
  - apply (Hp [] ("Id", "integer") [("Full Name", "string")] eq_refl);
      [discriminate | discriminate |].
    intros q [<-|[]]. discriminate.
  - apply (Hp [("Id", "integer")] ("Full Name", "string") [] eq_refl);
      [discriminate | discriminate |].
    intros q [].
Defined.

(** ** SQLCache: the class as written and the database *)

(** X14. On the class with nothing overridden no engine is ever obtained:
    [get_sql_engine] hands [get_sql_alchemy_url] an argument it does not
    take and raises [TypeError].  So creating a table, testing for one,
    dropping one and ensuring the final table all raise it, with nothing
    sent to the database. *)
Theorem plain_class_has_no_engine {DB} (E : sql_environment DB)
    (config : SQLCacheConfigBase) (catalog : list (string * list (string * string)))
    (to_sql_type : string -> string) (w : sql_world DB) :
  exists message,
    get_sql_engine (SQLCache_core config catalog to_sql_type) = Raise (TypeError message)
    /\ (forall table_name column_definition_str,
          _create_table E (SQLCache_core config catalog to_sql_type)
            table_name column_definition_str w
          = (Raise (TypeError message), w))
    /\ (forall table_name,
          _table_exists E (SQLCache_core config catalog to_sql_type) table_name w
          = (Raise (TypeError message), w))
    /\ (forall table_name,
          _drop_temp_table E (SQLCache_core config catalog to_sql_type) table_name w
          = (Raise (TypeError message), w))
    /\ (forall stream_name create_if_missing,
          _ensure_final_table_exists E (SQLCache_core config catalog to_sql_type)
            stream_name create_if_missing w
          = (Raise (TypeError message), w)).
Proof. eexists. repeat split. Qed.

(** X15. With the class's own merge and append methods the step that moves
    the temp table into the final table never reaches the database,
    whatever the mode and whatever else a subclass overrides: [@final]
    [_write_temp_table_to_final_table] calls them with two arguments, and
    they take three.  In replace mode without merge support the
    [NotImplementedError] comes first. *)
Theorem own_merge_and_append_reject_two_arguments {DB} (E : sql_environment DB)
    (c : SQLCacheCore) (temp_table_name final_table_name : string) (w : sql_world DB) :
  exists e,
    _write_temp_table_to_final_table (extend E c) temp_table_name final_table_name w
    = (Raise e, w)
    /\ match dedupe_mode (config c), supports_merge_insert c with
       | REPLACE, false => exists message, e = NotImplementedError message
       | _, _ => exists message, e = TypeError message
       end.
Proof.
  unfold _write_temp_table_to_final_table. simpl.
  destruct (dedupe_mode (config c)), (supports_merge_insert c); simpl;
    eexists; (split; [reflexivity | eexists; reflexivity]).
Qed.

(** X16. Finalize on an empty dict of batches raises [ValueError] - [max]
    of no keys - before a name is made or anything is sent; this holds for
    every instance, whatever it overrides. *)
Theorem finalize_without_batches_raises {DB} (E : sql_environment DB) (self : SQLCache DB)
    (stream_name : string) (w : sql_world DB) :
  exists message,
    _finalize_batches E self stream_name [] w = (Raise (ValueError message), w).
Proof. eexists. reflexivity. Qed.

(** ** SQLCache: loading the files *)

(** X17. The loading loop sends one [to_sql] per file, in the order of the
    files and with what the Parquet reader gave for each, until the first
    failure; it draws no ULID.  When it returns, every file was sent. *)
Theorem load_files_sends_each_file {DB} (E : sql_environment DB) (self : SQLCacheCore)
    (table_name : string) (files : list string) :
  forall (w w' : sql_world DB) (r : result unit),
    load_files E self files table_name w = (r, w') ->
    ulids_drawn w' = ulids_drawn w
    /\ exists frames,
         issued w' = issued w ++ List.map (ToSql table_name) frames
         /\ Forall2 (fun file_path data => read_parquet E file_path = Ok data)
              (take (length frames) files) frames
         /\ (length frames <= length files)%nat
         /\ (r = Ok tt -> length frames = length files).
Proof.
  induction files as [|file_path rest IH]; intros w w' r.
  - intros [= <- <-]. split; [reflexivity |]. exists []. simpl.
    rewrite app_nil_r. repeat split; auto; constructor.
  - simpl load_files. unfold mbind at 1, M_bind at 1, lift_result at 1.
    destruct (read_parquet E file_path) as [data|e] eqn:Hread.
    2:{ intros [= <- <-]. split; [reflexivity |]. exists []. simpl.
        rewrite app_nil_r. repeat split; [constructor | lia | discriminate]. }
    unfold mbind at 1, M_bind at 1, lift_result at 1.
    destruct (self_get_sql_alchemy_url self []) as [url|e].
    2:{ intros [= <- <-]. split; [reflexivity |]. exists []. simpl.
        rewrite app_nil_r. repeat split; [constructor | lia | discriminate]. }
    unfold mbind at 1, M_bind at 1, run_to_sql at 1.
    destruct (to_sql E table_name url data (db w)) as [[[]|e] d].
    + intros H. apply IH in H as (Hu & frames & Hi & Hf & Hl & Hr). simpl in Hu, Hi.
      split; [exact Hu |]. exists (data :: frames). simpl.
      rewrite Hi, <- app_assoc. repeat split.
      * constructor; assumption.
      * lia.
      * intros Hok. now rewrite Hr.
    + intros [= <- <-]. split; [reflexivity |]. exists [data]. simpl.
      repeat split; [repeat constructor; exact Hread | lia | discriminate].
Qed.

Lemma load_files_sends_each_file_witness :
  exists frames,
    issued (snd (load_files mem_env (stream_core APPEND)
                   ["users-01HA.parquet"; "users-01HB.parquet"] "users_01hb" empty_world))
    = List.map (ToSql "users_01hb") frames
    /\ length frames = 2%nat.
Proof.
  destruct (load_files_sends_each_file mem_env (stream_core APPEND) "users_01hb"
              ["users-01HA.parquet"; "users-01HB.parquet"] empty_world
              (snd (load_files mem_env (stream_core APPEND)
                      ["users-01HA.parquet"; "users-01HB.parquet"] "users_01hb"
                      empty_world))
              (Ok tt) eq_refl)
    as (_ & frames & Hi & _ & _ & Hr).
  exists frames. split; [exact Hi | exact (Hr eq_refl)].
Defined.

(** X18. Every file is written with [if_exists="replace"]: on an engine
    where that puts the frame in place of the table, a loading loop that
    returns leaves in the table the rows of the last file alone. *)
Theorem load_files_keeps_the_last_file {DB} (E : sql_environment DB) (self : SQLCacheCore)
    (put : string -> frame -> DB -> DB) (table_name : string)
    (files : list string) (last_file : string) :
  (forall name url data d, to_sql E name url data d = (Ok tt, put name data d)) ->
  (forall name data data' d, put name data' (put name data d) = put name data' d) ->
  forall (w w' : sql_world DB),
    load_files E self (files ++ [last_file]) table_name w = (Ok tt, w') ->
    exists data,
      read_parquet E last_file = Ok data /\ db w' = put table_name data (db w).
Proof.
  intros Hto Hput. induction files as [|file_path rest IH]; intros w w'.
  - simpl load_files. unfold mbind at 1, M_bind at 1, lift_result at 1.
    destruct (read_parquet E last_file) as [data|e]; [| discriminate].
    unfold mbind at 1, M_bind at 1, lift_result at 1.
    destruct (self_get_sql_alchemy_url self []) as [url|e]; [| discriminate].
    unfold mbind at 1, M_bind at 1, run_to_sql at 1. rewrite Hto.
    intros [= <-]. exists data. split; reflexivity.
  - simpl load_files. unfold mbind at 1, M_bind at 1, lift_result at 1.
    destruct (read_parquet E file_path) as [data0|e]; [| discriminate].
    unfold mbind at 1, M_bind at 1, lift_result at 1.
    destruct (self_get_sql_alchemy_url self []) as [url|e]; [| discriminate].
    unfold mbind at 1, M_bind at 1, run_to_sql at 1. rewrite Hto.
    intros H. apply IH in H as (data & Hread & Hdb). simpl in Hdb.
    exists data. split; [exact Hread |]. now rewrite Hdb, Hput.
Qed.

Lemma load_files_keeps_the_last_file_witness :
  db (snd (load_files mem_env (stream_core APPEND)
             ["users-01HA.parquet"; "users-01HB.parquet"] "users_01hb" empty_world))
  = <["users_01hb" := more_users_rows]> ∅.
Proof.
  assert (Hput : forall (name : string) (data data' : frame) (d : gmap string frame),
             <[name := data']> (<[name := data]> d) = <[name := data']> d).
  { intros name data data' d. apply insert_insert_eq. }
  destruct (load_files_keeps_the_last_file mem_env (stream_core APPEND)
              (fun name data d => <[name := data]> d) "users_01hb"
              ["users-01HA.parquet"] "users-01HB.parquet"
              (fun _ _ _ _ => eq_refl) Hput
              empty_world
              (snd (load_files mem_env (stream_core APPEND)
                      ["users-01HA.parquet"; "users-01HB.parquet"] "users_01hb"
                      empty_world))
              eq_refl)
    as (data & Hread & Hdb).
  injection Hread as <-. exact Hdb.
Defined.

(** ** SQLCache: the final table *)

(** X19. When the final table is there, or when [create_if_missing] is
    false, [_ensure_final_table_exists] asks the inspector once and sends
    no statement: the database is as it was, and the table name is
    returned - also for a table that is missing. *)
Theorem _ensure_final_table_exists_sends_no_statement {DB} (E : sql_environment DB)
    (self : SQLCacheCore) (stream_name : string) (create_if_missing did_exist : bool)
    (engine : string) (w : sql_world DB) :
  get_sql_engine self = Ok engine ->
  has_table E engine (self_get_sql_table_name self stream_name) (db w) = Ok did_exist ->
  did_exist = true \/ create_if_missing = false ->
  _ensure_final_table_exists E self stream_name create_if_missing w
  = (Ok (self_get_sql_table_name self stream_name),
     SqlWorld (db w) (ulids_drawn w)
       (issued w ++ [HasTable (self_get_sql_table_name self stream_name)])).
Proof.
  intros He Hh Hc.
  unfold _ensure_final_table_exists, _table_exists, run_has_table, mbind, M_bind,
    lift_result.
  rewrite He, Hh.
  destruct Hc as [-> | ->]; [reflexivity |]. now rewrite andb_false_r.
Qed.

Lemma _ensure_final_table_exists_sends_no_statement_witness :
  _ensure_final_table_exists mem_env (stream_core APPEND) "users" true
    (SqlWorld (<["users" := users_rows]> ∅) 0 [])
  = (Ok "users", SqlWorld (<["users" := users_rows]> ∅) 0 [HasTable "users"])
  /\ _ensure_final_table_exists mem_env (stream_core APPEND) "users" false empty_world
     = (Ok "users", SqlWorld ∅ 0 [HasTable "users"]).
Proof.
  split.
  - exact (_ensure_final_table_exists_sends_no_statement mem_env (stream_core APPEND)
             "users" true true "sqlite://" (SqlWorld (<["users" := users_rows]> ∅) 0 [])
             eq_refl eq_refl (or_introl eq_refl)).
  - exact (_ensure_final_table_exists_sends_no_statement mem_env (stream_core APPEND)
             "users" false false "sqlite://" empty_world
             eq_refl eq_refl (or_intror eq_refl)).
Defined.

(** X20. The temp table and the final table of a stream are created with
    the same column definitions: when [_create_table_for_loading] returns
    it has sent one CREATE TABLE, and when [_ensure_final_table_exists]
    finds the final table missing and returns, it has sent, after the
    inspection, one CREATE TABLE with the same column text. *)
Theorem temp_and_final_tables_share_columns {DB} (E : sql_environment DB)
    (self : SQLCacheCore) (stream_name batch_id final_table_name engine : string)
    (w1 w1' w2 w2' : sql_world DB) :
  _create_table_for_loading E self [stream_name; batch_id] w1 = (Ok tt, w1') ->
  get_sql_engine self = Ok engine ->
  has_table E engine (self_get_sql_table_name self stream_name) (db w2) = Ok false ->
  _ensure_final_table_exists E self stream_name true w2 = (Ok final_table_name, w2') ->
  exists temp_table_name column_definition_str,
    issued w1' = issued w1 ++ [Execute (CreateTable temp_table_name column_definition_str)]
    /\ issued w2' = issued w2 ++ [HasTable final_table_name;
                                  Execute (CreateTable final_table_name
                                             column_definition_str)].
Proof.
  intros H1 He Hh H2.
  unfold _create_table_for_loading in H1.
  unfold mbind at 1, M_bind at 1 in H1.
  destruct (_get_temp_table_name E self stream_name (Some batch_id) w1)
    as [[temp|e] w1a] eqn:Ht; [| discriminate].
  assert (Hi : issued w1a = issued w1).
  { unfold _get_temp_table_name, mbind, M_bind in Ht.
    destruct (String.eqb batch_id ""); simpl in Ht; injection Ht as _ <-; reflexivity. }
  unfold mbind at 1, M_bind at 1, lift_result at 1 in H1.
  destruct (_get_sql_column_definitions self stream_name) as [columns|e] eqn:Hc;
    [| discriminate].
  unfold _create_table, mbind, M_bind, lift_result, run_statement in H1.
  rewrite He in H1.
  destruct (execute E engine _ (db w1a)) as [r1 d1].
  injection H1 as _ <-. simpl.
  unfold _ensure_final_table_exists, _table_exists, run_has_table, _create_table,
    run_statement, mbind, M_bind, lift_result in H2.
  rewrite He, Hh in H2. simpl in H2. rewrite Hc in H2. simpl in H2.
  destruct (execute E engine _ (db w2)) as [[[]|e] d2]; [| discriminate].
  injection H2 as <- <-. simpl.
  exists temp, (column_definition_str columns). rewrite Hi, <- app_assoc. split; reflexivity.
Qed.

Lemma temp_and_final_tables_share_columns_witness :
  exists temp_table_name column_definition_str,
    issued (snd (_create_table_for_loading mem_env (stream_core APPEND)
                   ["users"; "01HA"] empty_world))
    = [Execute (CreateTable temp_table_name column_definition_str)]
    /\ issued (snd (_ensure_final_table_exists mem_env (stream_core APPEND) "users" true
                      empty_world))
       = [HasTable "users"; Execute (CreateTable "users" column_definition_str)].
Proof.
  apply (temp_and_final_tables_share_columns mem_env (stream_core APPEND)
           "users" "01HA" "users" "sqlite://" empty_world _ empty_world _);
    reflexivity.
Defined.

(** X21. A temp table name is the normalized stream name, an underscore
    and the normalized batch id, so normalizing it again changes nothing.
    Making it never touches the database; a ULID is drawn exactly when no
    batch id, or the empty string, is given. *)
Theorem _get_temp_table_name_is_normalized {DB} (E : sql_environment DB)
    (config : SQLCacheConfigBase) (catalog : list (string * list (string * string)))
    (to_sql_type : string -> string) (stream_name : string) (batch_id : option string)
    (w : sql_world DB) :
  exists id w',
    _get_temp_table_name E (SQLCache_core config catalog to_sql_type) stream_name batch_id w
    = (Ok (_normalize_table_name stream_name +:+ "_" +:+ _normalize_table_name id), w')
    /\ _normalize_table_name
         (_normalize_table_name stream_name +:+ "_" +:+ _normalize_table_name id)
       = _normalize_table_name stream_name +:+ "_" +:+ _normalize_table_name id
    /\ db w' = db w /\ issued w' = issued w
    /\ match batch_id with
       | Some (String c b) => id = String c b /\ ulids_drawn w' = ulids_drawn w
       | _ => id = ulid E (ulids_drawn w) /\ ulids_drawn w' = S (ulids_drawn w)
       end.
Proof.
  assert (N : forall a b, _normalize_table_name (a +:+ "_" +:+ b)
                          = _normalize_table_name a +:+ "_" +:+ _normalize_table_name b).
  { intros a b. now rewrite !_normalize_table_name_map, !str_map_append. }
  assert (I : forall a b,
             _normalize_table_name
               (_normalize_table_name a +:+ "_" +:+ _normalize_table_name b)
             = _normalize_table_name a +:+ "_" +:+ _normalize_table_name b).
  { intros a b. rewrite <- N, !_normalize_table_name_map, str_map_map.
    apply str_map_ext, normalize_char_idem. }
  unfold _get_temp_table_name, mbind, M_bind.
  destruct batch_id as [[|c b]|]; simpl.
  - exists (ulid E (ulids_drawn w)). eexists. rewrite N. repeat split. apply I.
  - exists (String c b). eexists. rewrite N. repeat split. apply I.
  - exists (ulid E (ulids_drawn w)). eexists. rewrite N. repeat split. apply I.
Qed.
